(** * react-native-sonner: the toast registry and the visibility selector

    A shallow embedding of [ToastStateManager] (state.ts), of the constants it
    reads (constants.ts) and of the three memoised lists of [Toaster]
    (toaster.tsx), followed by the properties of the specification that are
    about them.

    Conventions of the embedding.
    - A JS value of type [A | undefined] is an [option A]; a key of an options
      object is a [Field A]: absent, or present with a value that may itself
      be [undefined].  Object spread copies present keys only.
    - [Date.now()] is an argument [now] of every operation that reads it,
      one reading for one call of the operation.
    - Callbacks and renderable content are opaque: they are handles, and a
      call of a callback is an entry of the operation's trace.  The message
      functions of [promise], whose results the registry stores, are
      functions [X → option Content]: they return and do not throw.
    - Subscribers and [onDismiss] callbacks are observers: they do not call
      back into the registry while an operation is running.
    - Numbers are integers. *)

From stdpp Require Import base tactics option list sorting numbers strings pretty.
From Stdlib Require Import ZArith Lia.

Open Scope Z_scope.

(** ** Data model (types.ts) *)

Definition Handle := nat.

(** [string | number]: the identifiers the registry is used with are strings
    and integers. *)
Inductive ToastId :=
  | IdStr (s : string)
  | IdNum (n : Z).

#[global] Instance ToastId_eq_dec : EqDecision ToastId.
Proof. solve_decision. Defined.

Inductive ToastType := TDefault | TSuccess | TError | TWarning | TInfo | TLoading.

#[global] Instance ToastType_eq_dec : EqDecision ToastType.
Proof. solve_decision. Defined.

Inductive Position :=
  | TopLeft | TopCenter | TopRight
  | BottomLeft | BottomCenter | BottomRight.

(** [string | ReactNode] without [undefined]: [null], a string, or any other
    renderable content. *)
Inductive Content :=
  | CNull
  | CText (s : string)
  | CNode (h : Handle).

#[global] Instance Content_eq_dec : EqDecision Content.
Proof. solve_decision. Defined.

Inductive Duration :=
  | Millis (ms : Z)
  | PositiveInfinity.

#[global] Instance Duration_eq_dec : EqDecision Duration.
Proof. solve_decision. Defined.

Record ToastT := mkToast {
  toast_id : ToastId;
  toast_type : ToastType;
  toast_title : option Content;
  toast_description : option Content;
  toast_icon : option Handle;
  toast_duration : option Duration;
  toast_dismissible : option bool;
  toast_action : option Handle;
  toast_cancel : option Handle;
  toast_onDismiss : option Handle;
  toast_onAutoClose : option Handle;
  toast_styles : option Handle;
  toast_important : option bool;
  toast_toasterId : option string;
  toast_createdAt : Z;
  toast_dismissed : option bool;
  toast_animation : option Handle;
  toast_accessibility : option Handle
}.

#[global] Instance ToastT_eq_dec : EqDecision ToastT.
Proof. solve_decision. Defined.

(** A key of an options object. *)
Inductive Field (A : Type) :=
  | Absent
  | Present (v : option A).
Arguments Absent {A}.
Arguments Present {A} v.

(** [o.key] *)
Definition read {A} (f : Field A) : option A :=
  match f with Absent => None | Present v => v end.

(** The key after [{...base, ...o}]. *)
Definition spread {A} (f : Field A) (base : option A) : option A :=
  match f with Absent => base | Present v => v end.

(** The run-time shape of [ExternalToast] and of [UpdateToastOptions].  The
    declared types leave out some keys ([type], [title], [createdAt] for the
    former, [id], [createdAt] for the latter); a caller can still pass them,
    so they are here. *)
Record ToastOptions := mkOptions {
  opt_id : Field ToastId;
  opt_type : Field ToastType;
  opt_title : Field Content;
  opt_description : Field Content;
  opt_icon : Field Handle;
  opt_duration : Field Duration;
  opt_dismissible : Field bool;
  opt_action : Field Handle;
  opt_cancel : Field Handle;
  opt_onDismiss : Field Handle;
  opt_onAutoClose : Field Handle;
  opt_styles : Field Handle;
  opt_important : Field bool;
  opt_toasterId : Field string;
  opt_createdAt : Field Z;
  opt_dismissed : Field bool;
  opt_animation : Field Handle;
  opt_accessibility : Field Handle
}.

(** [{}] *)
Definition emptyOptions : ToastOptions :=
  mkOptions Absent Absent Absent Absent Absent Absent Absent Absent Absent
            Absent Absent Absent Absent Absent Absent Absent Absent Absent.

(** [a ?? b] on content: [null] and [undefined] fall through. *)
Definition coalesceContent (a b : option Content) : option Content :=
  match a with
  | None | Some CNull => b
  | Some _ => a
  end.

(** ** Constants (constants.ts) *)

Definition DISMISSED_CACHE_MAX_SIZE : nat := 100.
Definition DISMISSED_CACHE_CLEANUP_THRESHOLD : nat := 50.
Definition MAX_SAFE_INTEGER : Z := 9007199254740991.

(** ** [Array.prototype.sort]

    The sort is stable, and [b] goes before [a] only when the comparator says
    [cmp a b > 0]. *)
Section Sort.
Context {A : Type} (cmp : A → A → Z).

Fixpoint insertBy (x : A) (l : list A) : list A :=
  match l with
  | [] => [x]
  | y :: l' => if 0 <? cmp x y then y :: insertBy x l' else x :: l
  end.

Definition sortBy (l : list A) : list A := foldr insertBy [] l.
End Sort.

(** ** [Map<string | number, number>] with its insertion order *)

Abbreviation Cache := (list (ToastId * Z)).

Definition cache_has (m : Cache) (k : ToastId) : bool :=
  bool_decide (k ∈ m.*1).

Definition cache_get (m : Cache) (k : ToastId) : option Z :=
  (λ p, p.2.2) <$> list_find (λ e, e.1 = k) m.

(** [m.set(k, v)]: an existing key keeps its place. *)
Fixpoint cache_set (k : ToastId) (v : Z) (m : Cache) : Cache :=
  match m with
  | [] => [(k, v)]
  | e :: m' => if decide (e.1 = k) then (k, v) :: m' else e :: cache_set k v m'
  end.

Definition cache_delete (k : ToastId) (m : Cache) : Cache :=
  filter (λ e, e.1 ≠ k) m.

(** ** The registry state (state.ts) *)

Record State := mkState {
  toastCount : Z;
  toasts : list ToastT;
  subscribers : list Handle;
  dismissSubscribers : list Handle;
  updateSubscribers : list Handle;
  dismissedToasts : Cache
}.

Definition initialState : State := mkState 0 [] [] [] [] [].

Inductive Event :=
  | Created (t : ToastT)
  | Updated (t : ToastT)
  | Dismissed (id : option ToastId).

(** What an operation does besides changing the state, in order: an event
    handed to a channel, with the registry as its subscribers find it; a call
    of a toast's [onDismiss]; a call of [data.finally]. *)
Inductive Effect :=
  | Publish (e : Event) (seen : State)
  | CallOnDismiss (h : Handle) (t : ToastT)
  | CallFinally (h : Handle).

Definition Trace := list Effect.

(** Stateful code: a state and trace monad. *)
Definition M (A : Type) : Type := State → A * State * Trace.

#[global] Instance M_ret : MRet M := λ A a st, (a, st, []).
#[global] Instance M_bind : MBind M := λ A B k m st,
  let '(a, st1, tr1) := m st in
  let '(b, st2, tr2) := k a st1 in
  (b, st2, tr1 ++ tr2).

Definition get : M State := λ st, (st, st, []).
Definition put (st : State) : M unit := λ _, (tt, st, []).
Definition emit (e : Effect) : M unit := λ st, (tt, st, [e]).

Definition with_toastCount (st : State) (n : Z) : State :=
  mkState n (toasts st) (subscribers st) (dismissSubscribers st)
    (updateSubscribers st) (dismissedToasts st).

Definition with_toasts (st : State) (l : list ToastT) : State :=
  mkState (toastCount st) l (subscribers st) (dismissSubscribers st)
    (updateSubscribers st) (dismissedToasts st).

Definition with_dismissedToasts (st : State) (m : Cache) : State :=
  mkState (toastCount st) (toasts st) (subscribers st) (dismissSubscribers st)
    (updateSubscribers st) m.

Definition set_toastCount (n : Z) : M unit :=
  st ← get; put (with_toastCount st n).

Definition set_toasts (l : list ToastT) : M unit :=
  st ← get; put (with_toasts st l).

Definition set_dismissedToasts (m : Cache) : M unit :=
  st ← get; put (with_dismissedToasts st m).

(** [forEach]/[for ... of] with a stateful body *)
Fixpoint forEach {A} (body : A → M unit) (l : list A) : M unit :=
  match l with
  | [] => mret tt
  | x :: l' => body x ;; forEach body l'
  end.

Definition generateId (now : Z) : M ToastId :=
  st ← get;
  let n := (toastCount st + 1) `mod` MAX_SAFE_INTEGER in
  set_toastCount n ;;
  mret (IdStr ("sonner-" +:+ pretty n +:+ "-" +:+ pretty now)).

(** [Set.add] and [Set.delete] *)
Definition set_add (h : Handle) (s : list Handle) : list Handle :=
  if bool_decide (h ∈ s) then s else s ++ [h].
Definition set_remove (h : Handle) (s : list Handle) : list Handle :=
  filter (λ x, x ≠ h) s.

Definition subscribe (callback : Handle) : M unit :=
  st ← get;
  put (mkState (toastCount st) (toasts st) (set_add callback (subscribers st))
         (dismissSubscribers st) (updateSubscribers st) (dismissedToasts st)).

Definition subscribeToDismiss (callback : Handle) : M unit :=
  st ← get;
  put (mkState (toastCount st) (toasts st) (subscribers st)
         (set_add callback (dismissSubscribers st)) (updateSubscribers st)
         (dismissedToasts st)).

Definition subscribeToUpdate (callback : Handle) : M unit :=
  st ← get;
  put (mkState (toastCount st) (toasts st) (subscribers st)
         (dismissSubscribers st) (set_add callback (updateSubscribers st))
         (dismissedToasts st)).

(** The functions the three [subscribe] methods return. *)
Definition unsubscribe (callback : Handle) : M unit :=
  st ← get;
  put (mkState (toastCount st) (toasts st)
         (set_remove callback (subscribers st))
         (dismissSubscribers st) (updateSubscribers st) (dismissedToasts st)).

Definition unsubscribeFromDismiss (callback : Handle) : M unit :=
  st ← get;
  put (mkState (toastCount st) (toasts st) (subscribers st)
         (set_remove callback (dismissSubscribers st)) (updateSubscribers st)
         (dismissedToasts st)).

Definition unsubscribeFromUpdate (callback : Handle) : M unit :=
  st ← get;
  put (mkState (toastCount st) (toasts st) (subscribers st)
         (dismissSubscribers st) (set_remove callback (updateSubscribers st))
         (dismissedToasts st)).

(** An event is recorded once, with the registry at that moment; the calls
    of the subscribers of its channel are read off by [deliveries]. *)
Definition publish (toast : ToastT) : M unit :=
  st ← get; emit (Publish (Created toast) st).

Definition publishDismiss (toastId : option ToastId) : M unit :=
  st ← get; emit (Publish (Dismissed toastId) st).

Definition publishUpdate (toast : ToastT) : M unit :=
  st ← get; emit (Publish (Updated toast) st).

Definition cleanupDismissedCache : M unit :=
  st ← get;
  if bool_decide (length (dismissedToasts st) ≤ DISMISSED_CACHE_MAX_SIZE)%nat
  then mret tt
  else
    let entries := sortBy (λ a b, a.2 - b.2) (dismissedToasts st) in
    let toRemove := take DISMISSED_CACHE_CLEANUP_THRESHOLD entries in
    forEach (λ e, st' ← get;
                  set_dismissedToasts (cache_delete e.1 (dismissedToasts st')))
            toRemove.

(** [options?.id ?? generateId()] *)
Definition resolveId (options : option ToastOptions) (now : Z) : M ToastId :=
  match options ≫= (λ o, read (opt_id o)) with
  | Some id => mret id
  | None => generateId now
  end.

(** [{ ...options, id, type, title, createdAt: Date.now() }] *)
Definition newToast (options : option ToastOptions) (id : ToastId)
    (type : ToastType) (title : option Content) (now : Z) : ToastT :=
  let o := default emptyOptions options in
  {| toast_id := id;
     toast_type := type;
     toast_title := title;
     toast_description := read (opt_description o);
     toast_icon := read (opt_icon o);
     toast_duration := read (opt_duration o);
     toast_dismissible := read (opt_dismissible o);
     toast_action := read (opt_action o);
     toast_cancel := read (opt_cancel o);
     toast_onDismiss := read (opt_onDismiss o);
     toast_onAutoClose := read (opt_onAutoClose o);
     toast_styles := read (opt_styles o);
     toast_important := read (opt_important o);
     toast_toasterId := read (opt_toasterId o);
     toast_createdAt := now;
     toast_dismissed := read (opt_dismissed o);
     toast_animation := read (opt_animation o);
     toast_accessibility := read (opt_accessibility o) |}.

(** [this.toasts.findIndex((t) => t.id === id)] *)
Definition findIndex (id : ToastId) (l : list ToastT) : option (nat * ToastT) :=
  list_find (λ t, toast_id t = id) l.

Definition create (title : option Content) (type : ToastType)
    (options : option ToastOptions) (now : Z) : M ToastId :=
  id ← resolveId options now;
  st ← get;
  if cache_has (dismissedToasts st) id then mret id
  else
    let toast := newToast options id type title now in
    match findIndex id (toasts st) with
    | Some (existingIndex, _) =>
        set_toasts (<[existingIndex := toast]> (toasts st)) ;;
        publishUpdate toast ;;
        mret id
    | None =>
        set_toasts (toasts st ++ [toast]) ;;
        publish toast ;;
        mret id
    end.

(** The merged record of [update]. *)
Definition mergedToast (existingToast : ToastT) (toastId : ToastId)
    (options : ToastOptions) : ToastT :=
  {| toast_id := toastId;
     toast_type := default (toast_type existingToast) (read (opt_type options));
     toast_title :=
       coalesceContent (read (opt_title options)) (toast_title existingToast);
     toast_description :=
       spread (opt_description options) (toast_description existingToast);
     toast_icon := spread (opt_icon options) (toast_icon existingToast);
     toast_duration :=
       spread (opt_duration options) (toast_duration existingToast);
     toast_dismissible :=
       spread (opt_dismissible options) (toast_dismissible existingToast);
     toast_action := spread (opt_action options) (toast_action existingToast);
     toast_cancel := spread (opt_cancel options) (toast_cancel existingToast);
     toast_onDismiss :=
       spread (opt_onDismiss options) (toast_onDismiss existingToast);
     toast_onAutoClose :=
       spread (opt_onAutoClose options) (toast_onAutoClose existingToast);
     toast_styles := spread (opt_styles options) (toast_styles existingToast);
     toast_important :=
       spread (opt_important options) (toast_important existingToast);
     toast_toasterId :=
       spread (opt_toasterId options) (toast_toasterId existingToast);
     toast_createdAt := toast_createdAt existingToast;
     toast_dismissed :=
       spread (opt_dismissed options) (toast_dismissed existingToast);
     toast_animation :=
       spread (opt_animation options) (toast_animation existingToast);
     toast_accessibility :=
       spread (opt_accessibility options) (toast_accessibility existingToast) |}.

Definition update (toastId : ToastId) (options : ToastOptions) : M bool :=
  st ← get;
  match findIndex toastId (toasts st) with
  | None => mret false
  | Some (index, existingToast) =>
      let updatedToast := mergedToast existingToast toastId options in
      set_toasts (<[index := updatedToast]> (toasts st)) ;;
      publishUpdate updatedToast ;;
      mret true
  end.

(** [toast.onDismiss?.(toast)] *)
Definition callOnDismiss (toast : ToastT) : M unit :=
  match toast_onDismiss toast with
  | Some h => emit (CallOnDismiss h toast)
  | None => mret tt
  end.

Definition dismiss (toastId : option ToastId) (now : Z) : M unit :=
  match toastId with
  | None =>
      st ← get;
      forEach (λ toast,
                 st' ← get;
                 set_dismissedToasts
                   (cache_set (toast_id toast) now (dismissedToasts st')) ;;
                 callOnDismiss toast)
              (toasts st) ;;
      set_toasts []
  | Some id =>
      st ← get;
      match findIndex id (toasts st) with
      | Some (_, toast) => callOnDismiss toast
      | None => mret tt
      end ;;
      st' ← get;
      set_dismissedToasts (cache_set id now (dismissedToasts st')) ;;
      st'' ← get;
      set_toasts (filter (λ t, toast_id t ≠ id) (toasts st''))
  end ;;
  publishDismiss toastId ;;
  cleanupDismissedCache.

Definition getToasts (st : State) : list ToastT := toasts st.

Definition getToast (st : State) (toastId : ToastId) : option ToastT :=
  snd <$> findIndex toastId (toasts st).

Definition isActive (st : State) (toastId : ToastId) : bool :=
  bool_decide (toastId ∈ toast_id <$> toasts st).

Definition clearDismissedHistory : M unit := set_dismissedToasts [].

(** ** [promise] (state.ts)

    [T] is the type of the results of the awaited work and [E] the type of
    the values it can be rejected with. *)
Section Promise.
Context {T E : Type}.

(** How a promise settles. *)
Inductive Settled :=
  | Fulfilled (result : T)
  | Rejected (error : E).

(** [Promise<T> | (() => Promise<T>)]: a pending promise, or a function
    whose call returns one or throws. *)
Inductive Work :=
  | APromise (p : Settled)
  | AFunction (call : E + Settled).

(** [string | ReactNode | ((x) => string | ReactNode)] *)
Inductive Message (X : Type) :=
  | Static (c : option Content)
  | Dynamic (f : X → option Content).
Arguments Static {X} c.
Arguments Dynamic {X} f.

Record PromiseData := mkPromiseData {
  data_loading : option Content;
  data_success : Message T;
  data_error : Message E;
  data_finally : option Handle
}.

(** [typeof m === "function" ? m(x) : m] *)
Definition resolveMessage {X} (m : Message X) (x : X) : option Content :=
  match m with
  | Static c => c
  | Dynamic f => f x
  end.

(** [{ ...options, duration: Number.POSITIVE_INFINITY, dismissible: false }] *)
Definition loadingOptions (options : option ToastOptions) : ToastOptions :=
  let o := default emptyOptions options in
  {| opt_id := opt_id o;
     opt_type := opt_type o;
     opt_title := opt_title o;
     opt_description := opt_description o;
     opt_icon := opt_icon o;
     opt_duration := Present (Some PositiveInfinity);
     opt_dismissible := Present (Some false);
     opt_action := opt_action o;
     opt_cancel := opt_cancel o;
     opt_onDismiss := opt_onDismiss o;
     opt_onAutoClose := opt_onAutoClose o;
     opt_styles := opt_styles o;
     opt_important := opt_important o;
     opt_toasterId := opt_toasterId o;
     opt_createdAt := opt_createdAt o;
     opt_dismissed := opt_dismissed o;
     opt_animation := opt_animation o;
     opt_accessibility := opt_accessibility o |}.

(** [{ type, title, dismissible: true, duration: options?.duration }] *)
Definition settledOptions (type : ToastType) (title : option Content)
    (options : option ToastOptions) : ToastOptions :=
  {| opt_id := Absent;
     opt_type := Present (Some type);
     opt_title := Present title;
     opt_description := Absent;
     opt_icon := Absent;
     opt_duration := Present (options ≫= λ o, read (opt_duration o));
     opt_dismissible := Present (Some true);
     opt_action := Absent;
     opt_cancel := Absent;
     opt_onDismiss := Absent;
     opt_onAutoClose := Absent;
     opt_styles := Absent;
     opt_important := Absent;
     opt_toasterId := Absent;
     opt_createdAt := Absent;
     opt_dismissed := Absent;
     opt_animation := Absent;
     opt_accessibility := Absent |}.

(** A computation that returns ([inr]) or throws ([inl]). *)
Definition tryCatchFinally {A} (body : M (E + A)) (handler : E → M (E + A))
    (finalizer : M unit) : M (E + A) :=
  r ← body;
  r' ← match r with
       | inl e => handler e
       | inr a => mret (inr a)
       end;
  finalizer ;;
  mret r'.

(** [await p] inside [try]: the value, or a throw of the rejection. *)
Definition await (p : Settled) : M (E + T) :=
  match p with
  | Fulfilled result => mret (inr result)
  | Rejected error => mret (inl error)
  end.

(** [data.finally?.()] *)
Definition callFinally (data : PromiseData) : M unit :=
  match data_finally data with
  | Some h => emit (CallFinally h)
  | None => mret tt
  end.

(** The [try]/[catch]/[finally] statement of [promise], run when the
    awaited promise has settled. *)
Definition promise_settle (id : ToastId) (p : Settled) (data : PromiseData)
    (options : option ToastOptions) : M (E + T) :=
  tryCatchFinally
    (r ← await p;
     match r with
     | inl e => mret (inl e)
     | inr result =>
         let successMessage := resolveMessage (data_success data) result in
         update id (settledOptions TSuccess successMessage options) ;;
         mret (inr result)
     end)
    (λ error,
       let errorMessage := resolveMessage (data_error data) error in
       update id (settledOptions TError errorMessage options) ;;
       mret (inl error))
    (callFinally data).

(** [promise]: the loading toast, the call of the work when it is a
    function, and, once the promise has settled, the rest.  [meanwhile] is
    whatever the registry is asked to do while the promise is pending.  The
    result is the value the returned promise is fulfilled with ([inr]) or
    rejected with ([inl]). *)
Definition promise (work : Work) (data : PromiseData)
    (options : option ToastOptions) (now : Z) (meanwhile : M unit) : M (E + T) :=
  id ← create (data_loading data) TLoading (Some (loadingOptions options)) now;
  match work with
  | AFunction (inl thrown) => mret (inl thrown)
  | AFunction (inr promiseToExecute) | APromise promiseToExecute =>
      meanwhile ;;
      promise_settle id promiseToExecute data options
  end.
End Promise.
Arguments Settled : clear implicits.
Arguments Work : clear implicits.
Arguments PromiseData : clear implicits.
Arguments Static {X} c.
Arguments Dynamic {X} f.

(** ** The lists of [Toaster] (toaster.tsx) *)

(** [position.startsWith("bottom")] *)
Definition startsWith_bottom (position : Position) : bool :=
  match position with
  | BottomLeft | BottomCenter | BottomRight => true
  | TopLeft | TopCenter | TopRight => false
  end.

(** Truthiness of a [string | undefined] *)
Definition truthy (s : option string) : bool :=
  match s with
  | Some s => negb (String.eqb s "")
  | None => false
  end.

(** Truthiness of [t.important] *)
Definition is_important (t : ToastT) : bool := default false (toast_important t).

Definition filteredToasts (toasts : list ToastT) (toasterId : option string)
    : list ToastT :=
  if negb (truthy toasterId) then toasts
  else filter (λ t, toast_toasterId t = toasterId ∨ toast_toasterId t = None) toasts.

Definition sortedToasts (filteredToasts : list ToastT) (position : Position)
    : list ToastT :=
  let sorted :=
    sortBy (λ a b, toast_createdAt b - toast_createdAt a) filteredToasts in
  if startsWith_bottom position then reverse sorted else sorted.

(** The elements of a list with their positions. *)
Fixpoint numbered {A} (i : nat) (l : list A) : list (nat * A) :=
  match l with
  | [] => []
  | x :: l' => (i, x) :: numbered (S i) l'
  end.

(** [sortedToasts.indexOf(a)] looks [a] up by reference, and the elements of
    [sortedToasts] are distinct objects (the registry builds each toast with
    an object literal of its own and holds it once), so what it finds for an
    element is the position of that element.  The elements are therefore
    carried with their positions through the two filters, the slice and the
    final sort. *)
Definition visibleToastList (sortedToasts : list ToastT) (visibleToasts : Z)
    : list ToastT :=
  if bool_decide (visibleToasts ≤ 0) then sortedToasts
  else
    let objects := numbered 0 sortedToasts in
    let important := filter (λ o, is_important o.2 = true) objects in
    let regular := filter (λ o, is_important o.2 ≠ true) objects in
    let remainingSlots := Z.max 0 (visibleToasts - Z.of_nat (length important)) in
    let visibleRegular := take (Z.to_nat remainingSlots) regular in
    let combined := important ++ visibleRegular in
    snd <$> sortBy (λ a b, Z.of_nat a.1 - Z.of_nat b.1) combined.

(** The Visibility Selector: the three lists in sequence. *)
Definition selector (toasts : list ToastT) (toasterId : option string)
    (position : Position) (visibleToasts : Z) : list ToastT :=
  visibleToastList (sortedToasts (filteredToasts toasts toasterId) position)
    visibleToasts.

(** A stable filter that lets every important element through and the first
    [slots] of the others. *)
Fixpoint keepFirst {A} (important : A → bool) (slots : nat) (l : list A) : list A :=
  match l with
  | [] => []
  | x :: l' =>
      if important x then x :: keepFirst important slots l'
      else match slots with
           | O => keepFirst important O l'
           | S slots' => x :: keepFirst important slots' l'
           end
  end.

(** ** Reading a run *)

(** The events an operation published, in order. *)
Definition events (tr : Trace) : list Event :=
  omap (λ x, match x with Publish e _ => Some e | _ => None end) tr.

(** The subscribers of the channel an event goes to. *)
Definition channel (st : State) (e : Event) : list Handle :=
  match e with
  | Created _ => subscribers st
  | Updated _ => updateSubscribers st
  | Dismissed _ => dismissSubscribers st
  end.

(** Every call of a subscriber, with the event it is given and the registry
    it can query at that moment. *)
Definition deliveries (tr : Trace) : list (Handle * Event * State) :=
  tr ≫= λ x,
    match x with
    | Publish e seen => (λ h, (h, e, seen)) <$> channel seen e
    | _ => []
    end.

(** The calls of [onDismiss] made for a list of toasts, in order. *)
Definition onDismissCalls (ts : list ToastT) : Trace :=
  omap (λ t, (λ h, CallOnDismiss h t) <$> toast_onDismiss t) ts.

(** The registry as the subscribers of [dismiss] find it. *)
Definition dismissedState (toastId : option ToastId) (now : Z) (st : State) : State :=
  match toastId with
  | None =>
      with_toasts
        (with_dismissedToasts st
           (foldl (λ m t, cache_set (toast_id t) now m) (dismissedToasts st)
              (toasts st)))
        []
  | Some id =>
      with_toasts
        (with_dismissedToasts st (cache_set id now (dismissedToasts st)))
        (filter (λ t, toast_id t ≠ id) (toasts st))
  end.

(** No two active toasts share an id. *)
Definition wf (st : State) : Prop := NoDup (toast_id <$> toasts st).

(** What [cleanupDismissedCache] leaves of a cache. *)
Definition cleaned (m : Cache) : Cache :=
  if bool_decide (length m ≤ DISMISSED_CACHE_MAX_SIZE)%nat then m
  else foldl (λ m' e, cache_delete e.1 m') m
         (take DISMISSED_CACHE_CLEANUP_THRESHOLD (sortBy (λ a b, a.2 - b.2) m)).

(** The trace of [data.finally?.()]. *)
Definition finallyCalls {T E} (data : PromiseData T E) : Trace :=
  match data_finally data with
  | Some h => [CallFinally h]
  | None => []
  end.

(** The update [promise] makes when the awaited promise has settled, and the
    way its own promise settles. *)
Definition settledUpdate {T E} (id : ToastId) (p : Settled T E)
    (data : PromiseData T E) (options : option ToastOptions) : M bool :=
  match p with
  | Fulfilled result =>
      update id (settledOptions TSuccess
                   (resolveMessage (data_success data) result) options)
  | Rejected error =>
      update id (settledOptions TError
                   (resolveMessage (data_error data) error) options)
  end.

Definition settledResult {T E} (p : Settled T E) : E + T :=
  match p with
  | Fulfilled result => inr result
  | Rejected error => inl error
  end.

(** The value, the final registry and the trace of a run. *)
Definition result_of {A} (r : A * State * Trace) : A := r.1.1.
Definition state_of {A} (r : A * State * Trace) : State := r.1.2.
Definition trace_of {A} (r : A * State * Trace) : Trace := r.2.

(** A registry on which an event has taken effect. *)
Definition happened (e : Event) (seen : State) : Prop :=
  match e with
  | Created t | Updated t => getToast seen (toast_id t) = Some t
  | Dismissed (Some id) =>
      getToast seen id = None ∧ cache_has (dismissedToasts seen) id = true
  | Dismissed None => getToasts seen = []
  end.

(** ** Sample registries *)

(** [{ id }] *)
Definition withId (id : ToastId) : ToastOptions :=
  mkOptions (Present (Some id)) Absent Absent Absent Absent Absent Absent
            Absent Absent Absent Absent Absent Absent Absent Absent Absent
            Absent Absent.

(** [{ title }] *)
Definition withTitle (title : option Content) : ToastOptions :=
  mkOptions Absent Absent (Present title) Absent Absent Absent Absent
            Absent Absent Absent Absent Absent Absent Absent Absent Absent
            Absent Absent.

(** [toast("t", { id: i })] for each [i], all at time [now]. *)
Definition createEach (ids : list Z) (now : Z) (st : State) : State :=
  foldl (λ st i,
           state_of (create (Some (CText "t")) TDefault
                       (Some (withId (IdNum i))) now st))
        st ids.

(** [toast.dismiss(i)] for each [i], at time [i]. *)
Definition dismissEach (ids : list Z) (st : State) : State :=
  foldl (λ st i, state_of (dismiss (Some (IdNum i)) i st)) st ids.

(** A registry with one dismiss subscriber and a hundred dismissed ids. *)
Definition fullCache : State :=
  dismissEach (seqZ 1 100) (state_of (subscribeToDismiss 7%nat initialState)).

(** A registry with 151 active toasts, and the same after [toast.dismiss()]. *)
Definition crowded : State := createEach (seqZ 1 151) 0 initialState.
Definition crowdedDismissed : State := state_of (dismiss None 0 crowded).

(** A registry with one active toast, created at time 1 under the id 1. *)
Definition oneToast : State := createEach [1] 1 initialState.

(** [{ loading: "Loading", success: "Done",
       error: (e) => "Failed: " + e, finally: ... }] *)
Definition boomData : PromiseData nat string :=
  mkPromiseData (Some (CText "Loading")) (Static (Some (CText "Done")))
    (Dynamic (λ e, Some (CText ("Failed: " +:+ e)))) (Some 9%nat).

(** [{ id, onDismiss }] *)
Definition withOnDismiss (id : ToastId) (h : Handle) : ToastOptions :=
  mkOptions (Present (Some id)) Absent Absent Absent Absent Absent Absent
            Absent Absent (Present (Some h)) Absent Absent Absent Absent
            Absent Absent Absent Absent.

(** A registry with one active toast that has an [onDismiss]. *)
Definition watchedToast : State :=
  state_of (create (Some (CText "t")) TDefault
              (Some (withOnDismiss (IdNum 1) 3%nat)) 1 initialState).

(** A toast that only has an id and a creation time, and a flag. *)
Definition plainToast (i : Z) (createdAt : Z) (important : bool) : ToastT :=
  mkToast (IdNum i) TDefault (Some (CText "t")) None None None None None None
          None None None (Some important) None createdAt None None None.

(** ** Sequences of calls (state.ts) *)

(** What an application call site can ask of the registry. *)
Inductive Request :=
  | DoCreate (title : option Content) (type : ToastType)
      (options : option ToastOptions) (now : Z)
  | DoUpdate (toastId : ToastId) (options : ToastOptions)
  | DoDismiss (toastId : option ToastId) (now : Z)
  | DoClearDismissedHistory.

Definition request (r : Request) : M unit :=
  match r with
  | DoCreate title type options now =>
      create title type options now ;; mret tt
  | DoUpdate toastId options => update toastId options ;; mret tt
  | DoDismiss toastId now => dismiss toastId now
  | DoClearDismissedHistory => clearDismissedHistory
  end.

Definition requests (rs : list Request) : M unit := forEach request rs.


(** What every registry that calls have built satisfies: no two active
    toasts share an id, the keys of the cache and the members of the three
    subscriber sets are distinct, and no active id is in the cache. *)
Definition consistent (st : State) : Prop :=
  NoDup (toast_id <$> toasts st)
  ∧ NoDup (dismissedToasts st).*1
  ∧ (∀ id, id ∈ toast_id <$> toasts st → id ∉ (dismissedToasts st).*1)
  ∧ NoDup (subscribers st)
  ∧ NoDup (dismissSubscribers st)
  ∧ NoDup (updateSubscribers st).

(** ** [useToastState] (use-toast-state.ts)

    The hook keeps a copy of the active list and subscribes one callback to
    each channel; each of them does [setToasts(ToastState.getToasts())]. *)
Record Hook := mkHook {
  hook_create : Handle;
  hook_dismiss : Handle;
  hook_update : Handle
}.

(** The callback of the hook on the channel of an event. *)
Definition hook_callback (hk : Hook) (e : Event) : Handle :=
  match e with
  | Created _ => hook_create hk
  | Updated _ => hook_update hk
  | Dismissed _ => hook_dismiss hk
  end.

(** The subscriptions of the hook's effect. *)
Definition hook_mount (hk : Hook) : M unit :=
  subscribe (hook_create hk) ;;
  subscribeToDismiss (hook_dismiss hk) ;;
  subscribeToUpdate (hook_update hk).

(** The copy of the hook after the deliveries of a trace. *)
Definition hook_after (hk : Hook) (copy : list ToastT) (tr : Trace) : list ToastT :=
  foldl (λ copy d,
           if bool_decide (d.1.1 = hook_callback hk d.1.2)
           then getToasts d.2 else copy)
        copy (deliveries tr).

(** ** More of [Toaster] (toaster.tsx) *)

(** [handleDismiss]: [toasts] is the copy of the hook. *)
Definition Toaster_handleDismiss (toasts : list ToastT) (toastId : ToastId)
    (now : Z) : M unit :=
  match snd <$> findIndex toastId toasts with
  | Some toast => callOnDismiss toast
  | None => mret tt
  end ;;
  dismiss (Some toastId) now.


(** ** The timer and the exit of [Toast] (toast.tsx, use-pauseable-timer.ts) *)

(** [AppStateStatus] of React Native *)
Inductive AppStateStatus :=
  | AppActive | AppBackground | AppInactive | AppUnknown | AppExtension.

#[global] Instance AppStateStatus_eq_dec : EqDecision AppStateStatus.
Proof. solve_decision. Defined.

(** [d > 0] *)
Definition positive_duration (d : Duration) : bool :=
  match d with
  | Millis ms => 0 <? ms
  | PositiveInfinity => true
  end.

(** [toast.duration ?? duration] *)
Definition effectiveDuration (toast : ToastT) (duration : Duration) : Duration :=
  default duration (toast_duration toast).

Definition shouldAutoDismiss (toast : ToastT) (duration : Duration) : bool :=
  positive_duration (effectiveDuration toast duration)
  && bool_decide (effectiveDuration toast duration ≠ PositiveInfinity)
  && bool_decide (toast_type toast ≠ TLoading).

(** The effect of [usePauseableTimer]: the delay of the timer it sets, if it
    sets one. *)
Definition usePauseableTimer (duration : Duration) (enabled : bool)
    (pauseOnBackground : bool) (appState : AppStateStatus) : option Z :=
  if negb enabled || negb (positive_duration duration)
     || bool_decide (duration = PositiveInfinity)
  then None
  else if pauseOnBackground && bool_decide (appState ≠ AppActive) then None
  else match duration with
       | Millis ms => Some ms
       | PositiveInfinity => None
       end.

(** The timer a [Toast] sets for its auto-close. *)
Definition autoCloseTimer (toast : ToastT) (duration : Duration)
    (pauseOnAppBackground : bool) (appState : AppStateStatus) : option Z :=
  usePauseableTimer (effectiveDuration toast duration)
    (shouldAutoDismiss toast duration) pauseOnAppBackground appState.

(** [const { dismissible = true } = toast] *)
Definition dismissible_or_default (toast : ToastT) : bool :=
  default true (toast_dismissible toast).

(** Whether the pan gesture is enabled, and whether the close button is
    rendered. *)
Definition swipeEnabled (toast : ToastT) (swipeToDismiss : bool) : bool :=
  swipeToDismiss && dismissible_or_default toast.
Definition closeButtonShown (toast : ToastT) (closeButton : bool) : bool :=
  closeButton && dismissible_or_default toast.

Definition ENTRY_OFFSET : Z := 40.

(** [position.startsWith("top")] *)
Definition startsWith_top (position : Position) : bool :=
  match position with
  | TopLeft | TopCenter | TopRight => true
  | BottomLeft | BottomCenter | BottomRight => false
  end.

(** What the handlers of a [Toast] start: the exit animation towards an
    offset, the call of [onDismiss(toast.id)] after a delay, the call of
    [toast.onAutoClose]. *)
Inductive ToastEffect :=
  | AnimateExit (exitOffset : Z) (exitDuration : Z)
  | ScheduleDismiss (toastId : ToastId) (delay : Z)
  | CallOnAutoClose (h : Handle) (toast : ToastT).

(** What the user and the timer do to a [Toast]. *)
Inductive Trigger :=
  | ClosePressed
  | TimerFired
  | SwipedAway.

(** [handleDismiss] of [Toast]: [isExiting] is [isExiting.current]. *)
Definition Toast_handleDismiss (toast : ToastT) (position : Position)
    (exitDuration : Z) (isExiting : bool) : bool * list ToastEffect :=
  if isExiting then (isExiting, [])
  else
    let exitOffset :=
      if startsWith_top position then - ENTRY_OFFSET else ENTRY_OFFSET in
    (true, [AnimateExit exitOffset exitDuration;
            ScheduleDismiss (toast_id toast) exitDuration]).

Definition delayedDismiss (toast : ToastT) (exitDuration : Z)
    (isExiting : bool) : bool * list ToastEffect :=
  if isExiting then (isExiting, [])
  else (true, [ScheduleDismiss (toast_id toast) exitDuration]).

Definition handleAutoClose (toast : ToastT) (position : Position)
    (exitDuration : Z) (isExiting : bool) : bool * list ToastEffect :=
  let called :=
    match toast_onAutoClose toast with
    | Some h => [CallOnAutoClose h toast]
    | None => []
    end in
  let '(isExiting', effects) :=
    Toast_handleDismiss toast position exitDuration isExiting in
  (isExiting', called ++ effects).

(** One trigger: the close button calls [handleDismiss], the timer
    [handleAutoClose], the end of a swipe that dismisses [delayedDismiss]. *)
Definition trigger (toast : ToastT) (position : Position) (exitDuration : Z)
    (isExiting : bool) (t : Trigger) : bool * list ToastEffect :=
  match t with
  | ClosePressed => Toast_handleDismiss toast position exitDuration isExiting
  | TimerFired => handleAutoClose toast position exitDuration isExiting
  | SwipedAway => delayedDismiss toast exitDuration isExiting
  end.

Fixpoint triggers (toast : ToastT) (position : Position) (exitDuration : Z)
    (isExiting : bool) (ts : list Trigger) : bool * list ToastEffect :=
  match ts with
  | [] => (isExiting, [])
  | t :: ts' =>
      let '(isExiting', effects) :=
        trigger toast position exitDuration isExiting t in
      let '(isExiting'', effects') :=
        triggers toast position exitDuration isExiting' ts' in
      (isExiting'', effects ++ effects')
  end.

(** ** The icon of a [Toast] (toast.tsx, icons.tsx) *)

Inductive BuiltinIcon :=
  | SuccessIcon | ErrorIcon | WarningIcon | InfoIcon | LoadingIcon.

(** [getIcon]: [None] is [null]. *)
Definition getIcon (type : ToastType) : option BuiltinIcon :=
  match type with
  | TSuccess => Some SuccessIcon
  | TError => Some ErrorIcon
  | TWarning => Some WarningIcon
  | TInfo => Some InfoIcon
  | TLoading => Some LoadingIcon
  | TDefault => None
  end.

(** [ToastIcons]: a key holds a node to render, or nothing that renders
    (absent, or a falsy value). *)
Record ToastIcons := mkToastIcons {
  icons_success : option Handle;
  icons_error : option Handle;
  icons_warning : option Handle;
  icons_info : option Handle;
  icons_loading : option Handle
}.

(** [icons?.[type]], as far as it is truthy *)
Definition customIcon (icons : option ToastIcons) (type : ToastType)
    : option Handle :=
  icons ≫= λ i,
    match type with
    | TSuccess => icons_success i
    | TError => icons_error i
    | TWarning => icons_warning i
    | TInfo => icons_info i
    | TLoading => icons_loading i
    | TDefault => None
    end.

(** What [ToastIcon] renders inside its container. *)
Inductive RenderedIcon :=
  | Custom (node : Handle)
  | Builtin (icon : BuiltinIcon).

(** [ToastIcon]: [icon] is [toast.icon] as far as it is truthy. *)
Definition ToastIcon (icon : option Handle) (icons : option ToastIcons)
    (type : ToastType) : option RenderedIcon :=
  match icon with
  | Some node => Some (Custom node)
  | None =>
      match customIcon icons type with
      | Some node => Some (Custom node)
      | None => Builtin <$> getIcon type
      end
  end.

(** [hasCustomIcon] and [hasIcon] of [Toast]; without an icon the content
    gets the style [contentNoIcon]. *)
Definition hasCustomIcon (icon : option Handle) (icons : option ToastIcons)
    (type : ToastType) : bool :=
  bool_decide (is_Some icon) || bool_decide (is_Some (customIcon icons type)).

Definition hasIcon (icon : option Handle) (icons : option ToastIcons)
    (type : ToastType) : bool :=
  hasCustomIcon icon icons type || bool_decide (type ≠ TDefault).

(** The calls of [onDismiss] a list of effects schedules. *)
Definition scheduled (effects : list ToastEffect) : list ToastId :=
  omap (λ e, match e with ScheduleDismiss id _ => Some id | _ => None end)
    effects.

(** * Properties *)

Ltac run :=
  cbv [create update dismiss resolveId generateId publish publishUpdate
       publishDismiss set_toasts set_toastCount set_dismissedToasts
       callOnDismiss get put emit mbind mret M_bind M_ret].

(** ** The sort *)

Section SortFacts.
Context {A : Type} (cmp : A → A → Z) (key : A → Z).
Hypothesis cmp_key : ∀ a b, cmp a b = key a - key b.

Local Abbreviation le := (λ a b, key a ≤ key b).
Local Abbreviation lt := (λ a b, key a < key b).

Lemma insertBy_Permutation x l : insertBy cmp x l ≡ₚ x :: l.
Proof.
  induction l as [|y l IH]; simpl; [done|].
  destruct (0 <? cmp x y); [|done]. rewrite IH. apply Permutation_swap.
Qed.

Lemma sortBy_Permutation l : sortBy cmp l ≡ₚ l.
Proof.
  induction l as [|x l IH]; simpl; [done|].
  unfold sortBy in *. simpl. by rewrite insertBy_Permutation, IH.
Qed.

Lemma length_sortBy l : length (sortBy cmp l) = length l.
Proof. apply Permutation_length, sortBy_Permutation. Qed.

Lemma insertBy_sorted x l :
  StronglySorted le l → StronglySorted le (insertBy cmp x l).
Proof.
  induction 1 as [|y l Hl IH Hy]; simpl.
  - repeat constructor.
  - destruct (Z.ltb_spec 0 (cmp x y)) as [Hlt|Hge]; rewrite cmp_key in *.
    + constructor; [done|]. rewrite insertBy_Permutation.
      constructor; [lia|done].
    + constructor; [by constructor|].
      constructor; [lia|]. eapply Forall_impl; [done|]. simpl. lia.
Qed.

Lemma sortBy_sorted l : StronglySorted le (sortBy cmp l).
Proof.
  induction l as [|x l IH]; [constructor|]. by apply insertBy_sorted.
Qed.

(** Stability: elements of equal key keep their relative order. *)
Lemma insertBy_stable k x l :
  filter (λ y, key y = k) (insertBy cmp x l) = filter (λ y, key y = k) (x :: l).
Proof.
  induction l as [|y l IH]; simpl; [done|].
  destruct (Z.ltb_spec 0 (cmp x y)) as [Hlt|Hge]; [|done].
  rewrite cmp_key in Hlt. destruct (decide (key y = k)) as [Hy|Hy].
  - rewrite (filter_cons_True _ y) by done. rewrite IH.
    rewrite !(filter_cons_False _ x) by lia. by rewrite filter_cons_True.
  - rewrite (filter_cons_False _ y) by done. rewrite IH.
    destruct (decide (key x = k)).
    + rewrite !(filter_cons_True _ x) by done. by rewrite filter_cons_False.
    + rewrite !(filter_cons_False _ x) by done. by rewrite filter_cons_False.
Qed.

Lemma sortBy_stable k l :
  filter (λ y, key y = k) (sortBy cmp l) = filter (λ y, key y = k) l.
Proof.
  induction l as [|x l IH]; [done|]. unfold sortBy in *. simpl.
  rewrite insertBy_stable. destruct (decide (key x = k)).
  - rewrite !(filter_cons_True _ x) by done. by rewrite IH.
  - rewrite !(filter_cons_False _ x) by done. by rewrite IH.
Qed.

(** A sorted list is left as it is. *)
Lemma insertBy_least x l :
  Forall (λ y, key x ≤ key y) l → insertBy cmp x l = x :: l.
Proof.
  destruct 1 as [|y l Hy _]; simpl; [done|].
  rewrite cmp_key. by destruct (Z.ltb_spec 0 (key x - key y)); [lia|].
Qed.

Lemma sortBy_of_sorted l : StronglySorted le l → sortBy cmp l = l.
Proof.
  induction 1 as [|x l Hl IH Hx]; [done|].
  unfold sortBy in *. simpl. rewrite IH. by apply insertBy_least.
Qed.

(** An element that is not below any other and comes last stays last. *)
Lemma insertBy_snoc x l z :
  key x ≤ key z → insertBy cmp x (l ++ [z]) = insertBy cmp x l ++ [z].
Proof.
  intros Hz. induction l as [|y l IH]; simpl.
  - rewrite cmp_key. by destruct (Z.ltb_spec 0 (key x - key z)); [lia|].
  - destruct (0 <? cmp x y); [|done]. simpl. by rewrite IH.
Qed.

Lemma sortBy_snoc l z :
  Forall (λ x, key x ≤ key z) l → sortBy cmp (l ++ [z]) = sortBy cmp l ++ [z].
Proof.
  induction 1 as [|x l Hx Hl IH]; [done|].
  unfold sortBy in *. simpl. rewrite IH. by apply insertBy_snoc.
Qed.

Lemma sorted_le_lt l :
  StronglySorted le l → NoDup (key <$> l) → StronglySorted lt l.
Proof.
  induction 1 as [|x l Hl IH Hx]; [constructor|].
  rewrite fmap_cons, NoDup_cons. intros [Hnin Hnd].
  constructor; [auto|]. rewrite Forall_forall in *. intros y Hy.
  specialize (Hx y Hy). simpl in Hx.
  assert (key x ≠ key y); [|lia].
  intros Heq. apply Hnin. rewrite Heq. apply list_elem_of_fmap. eauto.
Qed.

(** With distinct keys, the sort returns the one increasing arrangement. *)
Lemma sortBy_unique l l' :
  NoDup (key <$> l) → l' ≡ₚ l → StronglySorted lt l' → sortBy cmp l = l'.
Proof.
  intros Hnd Hperm Hl'.
  assert (AntiSymm (=) lt) by (intros x y ??; lia).
  apply (StronglySorted_unique lt).
  - apply sorted_le_lt; [apply sortBy_sorted|].
    by rewrite sortBy_Permutation.
  - done.
  - by rewrite sortBy_Permutation.
Qed.
End SortFacts.

(** ** The active list *)

Section ActiveList.
Implicit Types (l : list ToastT) (t : ToastT) (id : ToastId).

Lemma findIndex_None id l :
  findIndex id l = None ↔ id ∉ toast_id <$> l.
Proof.
  unfold findIndex. rewrite list_find_None, Forall_forall, list_elem_of_fmap.
  split.
  - intros Hl (t & -> & Hin). by apply (Hl t).
  - intros Hl t Hin Heq. apply Hl. eauto.
Qed.

Lemma findIndex_Some_inv id l i t :
  findIndex id l = Some (i, t) → l !! i = Some t ∧ toast_id t = id.
Proof. unfold findIndex. by intros (? & ? & _)%list_find_Some. Qed.

Lemma findIndex_is_Some id l :
  id ∈ toast_id <$> l → is_Some (findIndex id l).
Proof.
  intros Hin. destruct (findIndex id l) eqn:E; [eauto|].
  apply findIndex_None in E. done.
Qed.

Lemma findIndex_insert id l i t t' :
  findIndex id l = Some (i, t) → toast_id t' = id →
  findIndex id (<[i:=t']> l) = Some (i, t').
Proof.
  unfold findIndex. intros (Hi & _ & Hlt)%list_find_Some Ht'.
  apply list_find_insert_Some. right; left.
  split_and!; eauto using lookup_lt_Some.
Qed.

Lemma findIndex_snoc id l t :
  findIndex id l = None → toast_id t = id →
  findIndex id (l ++ [t]) = Some (length l, t).
Proof.
  unfold findIndex. intros Hn Ht. apply list_find_app_Some. right.
  split_and!; [lia|done|]. rewrite Nat.sub_diag. simpl.
  by rewrite decide_True.
Qed.

Lemma findIndex_filter_ne id l :
  findIndex id (filter (λ t, toast_id t ≠ id) l) = None.
Proof.
  apply findIndex_None. rewrite list_elem_of_fmap.
  by intros (t & -> & [Hne _]%list_elem_of_filter).
Qed.

Lemma filter_ne_absent id l :
  id ∉ toast_id <$> l → filter (λ t, toast_id t ≠ id) l = l.
Proof.
  intros Hn. induction l as [|x l IH]; [done|].
  rewrite fmap_cons, not_elem_of_cons in Hn. destruct Hn as [Hx Hl].
  rewrite filter_cons_True by congruence. f_equal. auto.
Qed.

Lemma ids_insert id l i t t' :
  l !! i = Some t → toast_id t = id → toast_id t' = id →
  toast_id <$> <[i:=t']> l = toast_id <$> l.
Proof.
  intros Hi Ht Ht'. rewrite list_fmap_insert. apply list_insert_id.
  rewrite list_lookup_fmap, Hi. simpl. congruence.
Qed.

(** With distinct ids, a toast of the list is the one its id finds. *)
Lemma findIndex_NoDup l t :
  NoDup (toast_id <$> l) → t ∈ l →
  snd <$> findIndex (toast_id t) l = Some t.
Proof.
  intros Hnd Hin. induction l as [|x l IH]; [by apply elem_of_nil in Hin|].
  unfold findIndex. simpl. rewrite fmap_cons in Hnd.
  apply NoDup_cons in Hnd as [Hx Hnd]. case_decide as Hd.
  - simpl. apply elem_of_cons in Hin as [->|Hin]; [done|].
    destruct Hx. rewrite Hd. apply list_elem_of_fmap. eauto.
  - apply elem_of_cons in Hin as [->|Hin]; [done|].
    specialize (IH Hnd Hin). unfold findIndex in IH.
    destruct (list_find _ l) as [[??]|]; simplify_eq/=; done.
Qed.

Lemma filter_id_absent id l :
  id ∉ toast_id <$> l → filter (λ t, toast_id t = id) l = [].
Proof.
  induction l as [|x l IH]; [done|].
  rewrite fmap_cons, not_elem_of_cons. intros [Hx Hl].
  rewrite filter_cons_False by done. auto.
Qed.

Lemma filter_id_insert id l i t t' :
  NoDup (toast_id <$> l) → l !! i = Some t → toast_id t = id →
  toast_id t' = id →
  filter (λ t, toast_id t = id) (<[i:=t']> l) = [t'].
Proof.
  intros Hnd Hi Ht Ht'. revert i Hnd Hi.
  induction l as [|x l IH]; intros [|i] Hnd Hi; try done;
    rewrite fmap_cons in Hnd; apply NoDup_cons in Hnd as [Hx Hnd]; simpl in *.
  - injection Hi as ->. rewrite filter_cons_True by done.
    f_equal. apply filter_id_absent. by rewrite <- Ht.
  - rewrite filter_cons_False; [by apply IH|].
    intros Heq. apply Hx. rewrite Heq, <- Ht.
    apply list_elem_of_fmap. eauto using list_elem_of_lookup_2.
Qed.
End ActiveList.

(** ** What each operation computes *)

Section Runs.
Implicit Types (st : State) (id : ToastId) (now : Z).

Lemma with_dismissedToasts_id st : with_dismissedToasts st (dismissedToasts st) = st.
Proof. by destruct st. Qed.

Lemma forEach_delete (body : ToastId * Z → M unit) (es : list (ToastId * Z)) st :
  (∀ e st', body e st'
     = (tt, with_dismissedToasts st' (cache_delete e.1 (dismissedToasts st')), [])) →
  forEach body es st
  = (tt, with_dismissedToasts st
           (foldl (λ m e, cache_delete e.1 m) (dismissedToasts st) es), []).
Proof.
  intros Hbody. revert st. induction es as [|e es IH]; intros st; simpl.
  - by rewrite with_dismissedToasts_id.
  - cbv [mbind M_bind]. rewrite Hbody, IH. done.
Qed.

Lemma cleanupDismissedCache_run st :
  cleanupDismissedCache st
  = (tt, with_dismissedToasts st (cleaned (dismissedToasts st)), []).
Proof.
  unfold cleanupDismissedCache, cleaned. cbv [mbind M_bind get].
  case_bool_decide.
  - by rewrite with_dismissedToasts_id.
  - rewrite forEach_delete by done. done.
Qed.

Lemma resolveId_given (o : ToastOptions) id now st :
  read (opt_id o) = Some id → resolveId (Some o) now st = (id, st, []).
Proof. intros H. unfold resolveId. simpl. by rewrite H. Qed.

Lemma resolveId_run options now st :
  ∃ id n, resolveId options now st = (id, with_toastCount st n, []).
Proof.
  unfold resolveId. destruct (options ≫= _) as [id|].
  - exists id, (toastCount st). by destruct st.
  - run. simpl. eauto.
Qed.

Lemma create_suppressed title type options now st id st1 :
  resolveId options now st = (id, st1, []) →
  cache_has (dismissedToasts st1) id = true →
  create title type options now st = (id, st1, []).
Proof.
  intros Hid Hc. unfold create. cbv [mbind M_bind]. rewrite Hid.
  cbv [get]. by rewrite Hc.
Qed.

Lemma create_existing title type options now st id st1 i t :
  resolveId options now st = (id, st1, []) →
  cache_has (dismissedToasts st1) id = false →
  findIndex id (toasts st1) = Some (i, t) →
  let toast := newToast options id type title now in
  let st' := with_toasts st1 (<[i := toast]> (toasts st1)) in
  create title type options now st = (id, st', [Publish (Updated toast) st']).
Proof.
  intros Hid Hc Hf. unfold create. cbv [mbind M_bind]. rewrite Hid.
  cbv [get]. by rewrite Hc, Hf.
Qed.

Lemma create_fresh title type options now st id st1 :
  resolveId options now st = (id, st1, []) →
  cache_has (dismissedToasts st1) id = false →
  findIndex id (toasts st1) = None →
  let toast := newToast options id type title now in
  let st' := with_toasts st1 (toasts st1 ++ [toast]) in
  create title type options now st = (id, st', [Publish (Created toast) st']).
Proof.
  intros Hid Hc Hf. unfold create. cbv [mbind M_bind]. rewrite Hid.
  cbv [get]. by rewrite Hc, Hf.
Qed.

Lemma update_absent toastId options st :
  findIndex toastId (toasts st) = None →
  update toastId options st = (false, st, []).
Proof. intros Hf. unfold update. cbv [mbind M_bind get]. by rewrite Hf. Qed.

Lemma update_present toastId options st i t :
  findIndex toastId (toasts st) = Some (i, t) →
  let updatedToast := mergedToast t toastId options in
  let st' := with_toasts st (<[i := updatedToast]> (toasts st)) in
  update toastId options st = (true, st', [Publish (Updated updatedToast) st']).
Proof. intros Hf. unfold update. cbv [mbind M_bind get]. by rewrite Hf. Qed.

Lemma forEach_dismiss (body : ToastT → M unit) now (ts : list ToastT) st :
  (∀ t st', body t st'
     = (tt, with_dismissedToasts st'
              (cache_set (toast_id t) now (dismissedToasts st')),
        onDismissCalls [t])) →
  forEach body ts st
  = (tt, with_dismissedToasts st
           (foldl (λ m t, cache_set (toast_id t) now m) (dismissedToasts st) ts),
     onDismissCalls ts).
Proof.
  intros Hbody. revert st. induction ts as [|t ts IH]; intros st; simpl.
  - by rewrite with_dismissedToasts_id.
  - cbv [mbind M_bind]. rewrite Hbody, IH. simpl.
    unfold onDismissCalls. simpl. by destruct (toast_onDismiss t).
Qed.

Lemma dismiss_run toastId now st :
  let seen := dismissedState toastId now st in
  dismiss toastId now st
  = (tt, with_dismissedToasts seen (cleaned (dismissedToasts seen)),
     onDismissCalls
       match toastId with
       | None => toasts st
       | Some id => option_list (getToast st id)
       end
     ++ [Publish (Dismissed toastId) seen]).
Proof.
  unfold dismiss. destruct toastId as [id|]; simpl.
  - unfold getToast, onDismissCalls.
    cbv [mbind M_bind mret M_ret get publishDismiss emit set_toasts
         set_dismissedToasts put callOnDismiss].
    destruct (findIndex id (toasts st)) as [[i t]|]; simpl;
      [destruct (toast_onDismiss t); simpl|];
      by rewrite cleanupDismissedCache_run.
  - cbv [mbind M_bind get publishDismiss emit set_toasts put].
    erewrite forEach_dismiss; last first.
    { intros t st'. unfold callOnDismiss, onDismissCalls. simpl.
      cbv [set_dismissedToasts mbind M_bind get put emit mret M_ret].
      by destruct (toast_onDismiss t). }
    rewrite cleanupDismissedCache_run. simpl. by rewrite !app_nil_r.
Qed.
End Runs.

(** ** The capacity step *)

Section Capacity.
Context {A : Type} (important : A → bool).
Implicit Types (l : list A) (o : list (nat * A)).

Local Abbreviation idx := (λ a : nat * A, Z.of_nat a.1).
Local Abbreviation imp := (λ a : nat * A, important a.2).

Lemma numbered_snd i l : (numbered i l).*2 = l.
Proof. revert i. induction l as [|x l IH]; intros i; simpl; [done|]. by rewrite IH. Qed.

Lemma numbered_bound i l : Forall (λ a, i ≤ a.1)%nat (numbered i l).
Proof.
  revert i. induction l as [|x l IH]; intros i; simpl; constructor; [simpl; lia|].
  eapply Forall_impl; [apply IH|]. simpl. lia.
Qed.

Lemma numbered_sorted i l :
  StronglySorted (λ a b, idx a < idx b) (numbered i l).
Proof.
  revert i. induction l as [|x l IH]; intros i; simpl; constructor; [done|].
  eapply Forall_impl; [apply (numbered_bound (S i))|]. simpl. lia.
Qed.

Lemma sublist_sorted {B} (R : relation B) (l1 l2 : list B) :
  l1 `sublist_of` l2 → StronglySorted R l2 → StronglySorted R l1.
Proof.
  induction 1 as [|x l1 l2 Hs IH|x l1 l2 Hs IH]; [done|..];
    intros [Hx Hl2]%StronglySorted_cons; [|by auto].
  constructor; [auto|]. rewrite Forall_forall in *.
  intros y Hy. apply Hx. by eapply elem_of_sublist.
Qed.

Lemma sorted_idx_NoDup o :
  StronglySorted (λ a b, idx a < idx b) o → NoDup (idx <$> o).
Proof.
  induction 1 as [|x o Ho IH Hx]; [constructor|].
  rewrite fmap_cons. constructor; [|done].
  rewrite list_elem_of_fmap. intros (y & Heq & Hy).
  rewrite Forall_forall in Hx. specialize (Hx y Hy). simpl in *. lia.
Qed.

Lemma keepFirst_sublist {B} (f : B → bool) slots (l : list B) :
  keepFirst f slots l `sublist_of` l.
Proof.
  revert slots. induction l as [|x l IH]; intros slots; simpl; [done|].
  destruct (f x); [by constructor|].
  destruct slots; by constructor.
Qed.

Lemma keepFirst_Permutation {B} (f : B → bool) slots (l : list B) :
  keepFirst f slots l
  ≡ₚ filter (λ x, f x = true) l ++ take slots (filter (λ x, f x ≠ true) l).
Proof.
  revert slots. induction l as [|x l IH]; intros slots; simpl; [by destruct slots|].
  destruct (f x) eqn:Hx.
  - rewrite filter_cons_True by done.
    rewrite (filter_cons_False (λ x, f x ≠ true)) by (rewrite Hx; naive_solver).
    simpl. by rewrite IH.
  - rewrite filter_cons_False by (rewrite Hx; done).
    rewrite (filter_cons_True (λ x, f x ≠ true)) by (rewrite Hx; done).
    destruct slots; simpl.
    + rewrite IH. by rewrite take_0.
    + rewrite IH. apply Permutation_middle.
Qed.

Lemma keepFirst_numbered slots i l :
  (keepFirst imp slots (numbered i l)).*2 = keepFirst important slots l.
Proof.
  revert slots i. induction l as [|x l IH]; intros slots i; simpl; [done|].
  destruct (important x); simpl; [by rewrite IH|].
  destruct slots; simpl; by rewrite IH.
Qed.

(** Sorting the kept elements by their positions is the stable filter. *)
Lemma sort_combined slots l :
  let objects := numbered 0 l in
  sortBy (λ a b, idx a - idx b)
    (filter (λ a, imp a = true) objects
     ++ take slots (filter (λ a, imp a ≠ true) objects))
  = keepFirst imp slots objects.
Proof.
  intros objects.
  pose proof (keepFirst_sublist imp slots objects) as Hsub.
  pose proof (numbered_sorted 0 l) as Hsorted.
  apply (sortBy_unique _ idx); [done|..].
  - rewrite <- keepFirst_Permutation.
    eapply sublist_NoDup; [by apply sorted_idx_NoDup|].
    by apply fmap_sublist.
  - apply keepFirst_Permutation.
  - by eapply sublist_sorted.
Qed.

Lemma keepFirst_important slots l :
  filter (λ x, important x = true) (keepFirst important slots l)
  = filter (λ x, important x = true) l.
Proof.
  revert slots. induction l as [|x l IH]; intros slots; simpl; [done|].
  destruct (important x) eqn:Hx.
  - rewrite !filter_cons_True by done. by rewrite IH.
  - rewrite (filter_cons_False _ x l) by (rewrite Hx; done).
    destruct slots; [done|].
    rewrite filter_cons_False by (rewrite Hx; done). done.
Qed.

Lemma keepFirst_none_important slots l :
  Forall (λ x, important x = false) l → keepFirst important slots l = take slots l.
Proof.
  intros Hl. revert slots. induction Hl as [|x l Hx Hl IH]; intros slots; simpl.
  - by destruct slots.
  - rewrite Hx. destruct slots; simpl; [|by rewrite IH].
    rewrite IH. by rewrite take_0.
Qed.
End Capacity.

Lemma length_filter_numbered (l : list ToastT) :
  length (filter (λ o : nat * ToastT, is_important o.2 = true) (numbered 0 l))
  = length (filter (λ t, is_important t = true) l).
Proof.
  generalize 0%nat. induction l as [|x l IH]; intros i; simpl; [done|].
  destruct (is_important x) eqn:Hx.
  - rewrite !filter_cons_True by done. simpl. by rewrite IH.
  - rewrite !filter_cons_False by (simpl; rewrite ?Hx; done). done.
Qed.

(** [visibleToastList] is the stable filter. *)
Lemma visibleToastList_keepFirst (sorted : list ToastT) (n : Z) :
  0 < n →
  visibleToastList sorted n
  = keepFirst is_important
      (Z.to_nat (Z.max 0
         (n - Z.of_nat (length (filter (λ t, is_important t = true) sorted)))))
      sorted.
Proof.
  intros Hn. unfold visibleToastList.
  rewrite bool_decide_eq_false_2 by lia.
  rewrite length_filter_numbered.
  rewrite (sort_combined is_important). apply keepFirst_numbered.
Qed.

(** C4.  Capacity never hides an important toast and never reorders.  For
    every list [sorted] handed to the capacity step and every limit [n]
    (in particular every [n] that is at least the number [k] of important
    toasts): the important toasts of the output are all [k] important toasts
    of [sorted]; the output is [sorted] with some toasts left out, so the
    kept ones are in the relative order they had; and when [n] is not
    positive the output is [sorted] itself. *)
Theorem capacity_keeps_important_in_order (sorted : list ToastT) (n : Z) :
  let visible := visibleToastList sorted n in
  filter (λ t, is_important t = true) visible
    = filter (λ t, is_important t = true) sorted
  ∧ visible `sublist_of` sorted
  ∧ (n ≤ 0 → visible = sorted).
Proof.
  intros visible. subst visible.
  destruct (decide (n ≤ 0)) as [Hn|Hn].
  - unfold visibleToastList. rewrite bool_decide_eq_true_2 by done. done.
  - rewrite visibleToastList_keepFirst by lia.
    split_and!; [apply keepFirst_important|apply keepFirst_sublist|lia].
Qed.

(** ** The order of [sortedToasts] *)

Lemma sorted_impl {B} (R1 R2 : relation B) (l : list B) :
  (∀ x y, R1 x y → R2 x y) → StronglySorted R1 l → StronglySorted R2 l.
Proof.
  intros HR. induction 1 as [|x l Hl IH Hx]; constructor; [done|].
  eapply Forall_impl; eauto.
Qed.

Lemma sorted_reverse {B} (R : relation B) (l : list B) :
  Transitive R → StronglySorted R l → StronglySorted (flip R) (reverse l).
Proof.
  intros HR Hl. apply Sorted_StronglySorted.
  - intros x y z ??. by apply (HR z y x).
  - by apply Sorted_reverse, StronglySorted_Sorted.
Qed.

Lemma sortedToasts_Permutation (l : list ToastT) (position : Position) :
  sortedToasts l position ≡ₚ l.
Proof.
  unfold sortedToasts. destruct (startsWith_bottom position);
    rewrite ?reverse_Permutation; apply sortBy_Permutation.
Qed.

Lemma sortBy_createdAt_desc (l : list ToastT) :
  StronglySorted (λ a b, toast_createdAt b ≤ toast_createdAt a)
    (sortBy (λ a b, toast_createdAt b - toast_createdAt a) l).
Proof.
  eapply sorted_impl;
    [|apply (sortBy_sorted _ (λ t, - toast_createdAt t)); intros; lia].
  simpl. lia.
Qed.

Lemma sortedToasts_top (l : list ToastT) (position : Position) :
  startsWith_bottom position = false →
  StronglySorted (λ a b, toast_createdAt b ≤ toast_createdAt a)
    (sortedToasts l position).
Proof.
  intros Hp. unfold sortedToasts. rewrite Hp. apply sortBy_createdAt_desc.
Qed.

Lemma sortedToasts_bottom (l : list ToastT) (position : Position) :
  startsWith_bottom position = true →
  StronglySorted (λ a b, toast_createdAt a ≤ toast_createdAt b)
    (sortedToasts l position).
Proof.
  intros Hp. unfold sortedToasts. rewrite Hp.
  apply (sorted_reverse (λ a b, toast_createdAt b ≤ toast_createdAt a)).
  - intros x y z. lia.
  - apply sortBy_createdAt_desc.
Qed.

(** Under a positive limit and with no important toast, the capacity step
    keeps the first [n] toasts of the sorted list. *)
Lemma visibleToastList_take (sorted : list ToastT) (n : Z) :
  0 < n → Forall (λ t, is_important t = false) sorted →
  visibleToastList sorted n = take (Z.to_nat n) sorted.
Proof.
  intros Hn Hall. rewrite visibleToastList_keepFirst by done.
  rewrite keepFirst_none_important by done.
  replace (filter _ sorted) with (@nil ToastT); [simpl; f_equal; lia|].
  symmetry. induction Hall as [|x l Hx _ IH]; [done|].
  rewrite filter_cons_False by (rewrite Hx; done). done.
Qed.

(** C10.  On a bottom-anchored surface with a positive limit [n], more than
    [n] toasts to show and none of them important, the selector returns the
    first [n] toasts of the oldest-first list: [n] toasts, in increasing
    order of [createdAt], none of them created after a toast that is left
    out.  On a top-anchored surface the same input gives the first [n] of the
    newest-first list instead: [n] toasts in decreasing order of [createdAt],
    none of them created before a toast that is left out.  (The comment on
    [visibleToastList], "show only the most recent N toasts", describes the
    top-anchored case only.) *)
Theorem bottom_anchor_keeps_oldest (toasts : list ToastT)
    (toasterId : option string) (position : Position) (n : Z) :
  let active := filteredToasts toasts toasterId in
  let visible := selector toasts toasterId position n in
  0 < n →
  (Z.to_nat n < length active)%nat →
  Forall (λ t, is_important t = false) active →
  length visible = Z.to_nat n
  ∧ (startsWith_bottom position = true →
       visible = take (Z.to_nat n) (sortedToasts active position)
       ∧ StronglySorted (λ a b, toast_createdAt a ≤ toast_createdAt b) visible
       ∧ ∃ hidden, active ≡ₚ visible ++ hidden ∧
           ∀ v h, v ∈ visible → h ∈ hidden → toast_createdAt v ≤ toast_createdAt h)
  ∧ (startsWith_bottom position = false →
       visible = take (Z.to_nat n) (sortedToasts active position)
       ∧ StronglySorted (λ a b, toast_createdAt b ≤ toast_createdAt a) visible
       ∧ ∃ hidden, active ≡ₚ visible ++ hidden ∧
           ∀ v h, v ∈ visible → h ∈ hidden → toast_createdAt h ≤ toast_createdAt v).
Proof.
  intros active visible Hn Hlen Hall.
  assert (visible = take (Z.to_nat n) (sortedToasts active position)) as Hvis.
  { subst visible. unfold selector. apply visibleToastList_take; [done|].
    by rewrite sortedToasts_Permutation. }
  assert (length (sortedToasts active position) = length active) as Hl
    by apply Permutation_length, sortedToasts_Permutation.
  assert (∀ R, StronglySorted R (sortedToasts active position) →
            StronglySorted R visible
            ∧ ∃ hidden, active ≡ₚ visible ++ hidden ∧
                ∀ v h, v ∈ visible → h ∈ hidden → R v h) as Hsplit.
  { intros R HR. rewrite Hvis.
    rewrite <- (take_drop (Z.to_nat n) (sortedToasts active position)) in HR.
    apply StronglySorted_app in HR as (Hcross & Htake & _).
    split; [done|]. exists (drop (Z.to_nat n) (sortedToasts active position)).
    split; [|done]. by rewrite take_drop, sortedToasts_Permutation. }
  split_and!.
  - rewrite Hvis, length_take. lia.
  - intros Hp. split; [done|]. by apply Hsplit, sortedToasts_bottom.
  - intros Hp. split; [done|].
    destruct (Hsplit (λ a b, toast_createdAt b ≤ toast_createdAt a))
      as (? & hidden & ? & ?); [by apply sortedToasts_top|].
    split; [done|]. exists hidden. eauto.
Qed.

(** ** The registry operations *)

Lemma getToast_isActive (st : State) (id : ToastId) :
  isActive st id = true ↔ is_Some (getToast st id).
Proof.
  unfold isActive, getToast. rewrite bool_decide_eq_true, fmap_is_Some.
  split; [apply findIndex_is_Some|].
  intros [[i t] [Hi <-]%findIndex_Some_inv]. apply list_elem_of_fmap.
  eauto using list_elem_of_lookup_2.
Qed.

Lemma isActive_false (st : State) (id : ToastId) :
  isActive st id = false ↔ findIndex id (toasts st) = None.
Proof.
  unfold isActive. by rewrite bool_decide_eq_false, findIndex_None.
Qed.

Lemma wf_getToast (st : State) (t : ToastT) :
  wf st → t ∈ toasts st → getToast st (toast_id t) = Some t.
Proof. apply findIndex_NoDup. Qed.

(** C1.  [create] with the id of a dismissed toast returns that id and does
    nothing else: the registry, and so its active list, is as it was, and the
    trace is empty, so no event of any channel is published. *)
Theorem create_dismissed_id_is_noop (id : ToastId) (title : option Content)
    (type : ToastType) (options : ToastOptions) (now : Z) (st : State) :
  read (opt_id options) = Some id →
  cache_has (dismissedToasts st) id = true →
  ∃ st' tr,
    create title type (Some options) now st = (id, st', tr)
    ∧ getToasts st' = getToasts st
    ∧ st' = st
    ∧ events tr = []
    ∧ tr = [].
Proof.
  intros Hid Hc. exists st, [].
  split; [|done]. apply create_suppressed; [|done]. by apply resolveId_given.
Qed.

(** The same when the id is a generated one: only the counter of generated
    ids has moved. *)
Lemma create_suppressed_generated (title : option Content) (type : ToastType)
    (options : option ToastOptions) (now : Z) (st : State) :
  ∃ id n,
    resolveId options now st = (id, with_toastCount st n, []) ∧
    (cache_has (dismissedToasts st) id = true →
     create title type options now st = (id, with_toastCount st n, [])).
Proof.
  destruct (resolveId_run options now st) as (id & n & Hr).
  exists id, n. split; [done|]. intros Hc. by apply create_suppressed.
Qed.

(** C2, as the code has it.  [create] with the id of an active toast, not
    dismissed, replaces that toast by the new record: the active list keeps
    its length, holds the new record and no other toast under that id, and
    one update event (and nothing else) is published.  The new record is
    stamped with the time of the call. *)
Theorem create_existing_id_replaces (title : option Content) (type : ToastType)
    (options : option ToastOptions) (now : Z) (st st1 : State) (id : ToastId)
    (T : ToastT) :
  resolveId options now st = (id, st1, []) →
  wf st →
  getToast st id = Some T →
  cache_has (dismissedToasts st) id = false →
  let toast := newToast options id type title now in
  ∃ st',
    create title type options now st = (id, st', [Publish (Updated toast) st'])
    ∧ events [Publish (Updated toast) st'] = [Updated toast]
    ∧ filter (λ t, toast_id t = id) (getToasts st') = [toast]
    ∧ getToast st' id = Some toast
    ∧ length (getToasts st') = length (getToasts st)
    ∧ toast_createdAt toast = now
    ∧ wf st'.
Proof.
  intros Hr Hwf HT Hc toast.
  destruct (resolveId_run options now st) as (id' & n & Hr').
  rewrite Hr in Hr'. injection Hr' as -> ->.
  unfold getToast in HT. apply fmap_Some in HT as ([i t] & Hf & ->).
  simpl in *. pose proof (findIndex_Some_inv _ _ _ _ Hf) as [Hi Ht].
  eexists. split; [by eapply create_existing|]. simpl.
  assert (toast_id <$> <[i:=toast]> (toasts st) = toast_id <$> toasts st) as Hids
    by (by eapply ids_insert).
  split_and!; try done.
  - by eapply filter_id_insert.
  - unfold getToast. simpl. by erewrite findIndex_insert.
  - by rewrite length_insert.
  - unfold wf, with_toasts. cbn [toasts]. subst toast. by rewrite Hids.
Qed.

(** C3.  [update] on an id that is not active returns [false] and changes
    nothing; on the id of an active toast [T] it returns [true], publishes
    one update event, and the toast then stored under the id has the id and
    the [createdAt] of [T], whatever [options] holds under [id] and
    [createdAt]. *)
Theorem update_preserves_identity (toastId : ToastId) (options : ToastOptions)
    (st : State) :
  (isActive st toastId = false → update toastId options st = (false, st, []))
  ∧ (∀ T, getToast st toastId = Some T →
       ∃ st' T',
         update toastId options st = (true, st', [Publish (Updated T') st'])
         ∧ getToast st' toastId = Some T'
         ∧ toast_id T' = toast_id T
         ∧ toast_createdAt T' = toast_createdAt T).
Proof.
  split.
  - intros Hn%isActive_false. by apply update_absent.
  - intros T HT. unfold getToast in HT.
    apply fmap_Some in HT as ([i t] & Hf & ->). simpl.
    pose proof (findIndex_Some_inv _ _ _ _ Hf) as [Hi Ht].
    eexists _, _. split; [by apply update_present|].
    split_and!; [|done..].
    unfold getToast. simpl. by erewrite findIndex_insert.
Qed.

(** C9, as the code has it.  After a successful [update] the stored toast
    keeps the prior [type] when [options.type] is absent or [undefined], and
    the prior [title] when [options.title] is absent, [undefined] or [null];
    any other value given, the empty string included, is stored. *)
Theorem update_field_defaults (toastId : ToastId) (options : ToastOptions)
    (st : State) (T : ToastT) :
  getToast st toastId = Some T →
  ∃ st' T' tr,
    update toastId options st = (true, st', tr)
    ∧ getToast st' toastId = Some T'
    ∧ (read (opt_type options) = None → toast_type T' = toast_type T)
    ∧ (∀ ty, read (opt_type options) = Some ty → toast_type T' = ty)
    ∧ (read (opt_title options) = None ∨ read (opt_title options) = Some CNull →
       toast_title T' = toast_title T)
    ∧ (∀ c, read (opt_title options) = Some c → c ≠ CNull →
       toast_title T' = Some c).
Proof.
  intros HT. unfold getToast in HT.
  apply fmap_Some in HT as ([i t] & Hf & ->). simpl.
  eexists _, _, _. split; [by apply update_present|].
  split; [unfold getToast; simpl; by erewrite findIndex_insert|].
  simpl. split_and!.
  - by intros ->.
  - by intros ty ->.
  - by intros [->| ->].
  - intros c -> Hc. by destruct c.
Qed.

(** ** The dismissed-id cache *)

Section CacheFacts.
Implicit Types (m : Cache) (k : ToastId) (v : Z) (es : list (ToastId * Z)).

Lemma cache_set_keys k v m :
  (cache_set k v m).*1 = if bool_decide (k ∈ m.*1) then m.*1 else m.*1 ++ [k].
Proof.
  induction m as [|[k' v'] m IH]; [done|]. cbn [cache_set].
  destruct (decide ((k', v').1 = k)) as [Hk|Hk]; rewrite !fmap_cons; cbn [fst] in *.
  - subst. rewrite bool_decide_eq_true_2 by apply list_elem_of_here. done.
  - rewrite IH. destruct (bool_decide_reflect (k ∈ m.*1)).
    + by rewrite bool_decide_eq_true_2 by by apply list_elem_of_further.
    + rewrite bool_decide_eq_false_2; [done|].
      rewrite not_elem_of_cons. naive_solver.
Qed.

Lemma cache_set_fresh k v m : k ∉ m.*1 → cache_set k v m = m ++ [(k, v)].
Proof.
  induction m as [|[k' v'] m IH]; simpl; [done|].
  rewrite not_elem_of_cons. intros [Hk Hm].
  rewrite decide_False by done. by rewrite IH.
Qed.

Lemma cache_set_NoDup k v m : NoDup m.*1 → NoDup (cache_set k v m).*1.
Proof.
  intros Hnd. rewrite cache_set_keys. case_bool_decide; [done|].
  apply NoDup_app. split_and!; [done| |apply NoDup_singleton].
  intros x Hx ->%list_elem_of_singleton. done.
Qed.

Lemma cache_get_set k v m : cache_get (cache_set k v m) k = Some v.
Proof.
  unfold cache_get. induction m as [|[k' v'] m IH]; simpl.
  - by rewrite decide_True.
  - destruct (decide (k' = k)) as [Hk|Hk]; simpl in *.
    + by rewrite decide_True.
    + rewrite decide_False by done.
      destruct (list_find _ (cache_set k v m)) as [[??]|]; simplify_eq/=; done.
Qed.

Lemma cache_has_set k v m : cache_has (cache_set k v m) k = true.
Proof.
  unfold cache_has. apply bool_decide_eq_true. rewrite cache_set_keys.
  case_bool_decide; [done|]. apply elem_of_app. right. apply list_elem_of_here.
Qed.

Lemma cache_get_delete_ne k k' m :
  k ≠ k' → cache_get (cache_delete k' m) k = cache_get m k.
Proof.
  intros Hne. unfold cache_get, cache_delete.
  induction m as [|[k0 v0] m IH]; [done|].
  destruct (decide (k0 = k')) as [->|Hk0].
  - rewrite filter_cons_False by (simpl; naive_solver).
    rewrite IH. simpl. rewrite decide_False by done.
    by destruct (list_find _ m) as [[??]|].
  - rewrite filter_cons_True by done. simpl.
    destruct (decide (k0 = k)); [done|].
    destruct (list_find _ m) as [[??]|],
      (list_find _ (filter _ m)) as [[??]|]; simplify_eq/=; congruence.
Qed.

Lemma cache_get_foldl_delete k es m :
  k ∉ es.*1 →
  cache_get (foldl (λ m' e, cache_delete e.1 m') m es) k = cache_get m k.
Proof.
  revert m. induction es as [|e es IH]; intros m; simpl; [done|].
  rewrite not_elem_of_cons. intros [Hk Hes].
  rewrite IH by done. by apply cache_get_delete_ne.
Qed.

Lemma cleaned_small m :
  (length m ≤ DISMISSED_CACHE_MAX_SIZE)%nat → cleaned m = m.
Proof. intros Hl. unfold cleaned. by rewrite bool_decide_eq_true_2. Qed.

(** A fresh id dismissed at a time no earlier than every cached one
    survives the cleanup. *)
Lemma cleaned_keeps_latest k v m :
  k ∉ m.*1 → Forall (λ e, e.2 ≤ v) m →
  cache_get (cleaned (cache_set k v m)) k = Some v.
Proof.
  intros Hk Hm. unfold cleaned. case_bool_decide as Hl.
  { apply cache_get_set. }
  rewrite cache_get_foldl_delete; [apply cache_get_set|].
  rewrite cache_set_fresh in * by done.
  rewrite (sortBy_snoc _ snd) by (done || (intros; lia)).
  rewrite length_app in Hl. simpl in Hl.
  unfold DISMISSED_CACHE_MAX_SIZE, DISMISSED_CACHE_CLEANUP_THRESHOLD in *.
  rewrite take_app_le by (rewrite length_sortBy; lia).
  intros Hin. apply Hk.
  eapply elem_of_sublist in Hin; [|apply fmap_sublist, sublist_take].
  by rewrite sortBy_Permutation in Hin.
Qed.
End CacheFacts.

Lemma dismissedState_seen (id : ToastId) (now : Z) (st : State) :
  let seen := dismissedState (Some id) now st in
  getToast seen id = None
  ∧ cache_get (dismissedToasts seen) id = Some now
  ∧ cache_has (dismissedToasts seen) id = true.
Proof.
  simpl. split_and!.
  - unfold getToast. simpl. by rewrite findIndex_filter_ne.
  - apply cache_get_set.
  - apply cache_has_set.
Qed.

(** C5, as the code has it.  [dismiss] of an id that is not active returns
    normally, leaves the active list as it was and publishes one dismiss
    event, with that id, and nothing else.  When the event is published the
    id is in the dismissed-id cache at the time of the call.  The cleanup of
    the cache follows; the id is still there when the call returns if the
    cache then holds no more than [DISMISSED_CACHE_MAX_SIZE] entries, or if
    the id was not cached before and no cached entry is later than the time
    of the call. *)
Theorem dismiss_unknown_id (id : ToastId) (now : Z) (st : State) :
  isActive st id = false →
  ∃ seen st',
    dismiss (Some id) now st = (tt, st', [Publish (Dismissed (Some id)) seen])
    ∧ getToasts st' = getToasts st
    ∧ getToasts seen = getToasts st
    ∧ cache_get (dismissedToasts seen) id = Some now
    ∧ dismissedToasts st' = cleaned (dismissedToasts seen)
    ∧ ((length (dismissedToasts seen) ≤ DISMISSED_CACHE_MAX_SIZE)%nat →
       st' = seen ∧ cache_get (dismissedToasts st') id = Some now)
    ∧ (cache_has (dismissedToasts st) id = false →
       Forall (λ e, e.2 ≤ now) (dismissedToasts st) →
       cache_get (dismissedToasts st') id = Some now).
Proof.
  intros Hn. pose proof Hn as Hf%isActive_false.
  eexists _, _. split.
  { rewrite dismiss_run. unfold getToast. rewrite Hf. simpl. reflexivity. }
  assert (getToasts (dismissedState (Some id) now st) = getToasts st) as Hsame.
  { unfold getToasts. simpl. apply filter_ne_absent.
    unfold isActive in Hn. by apply bool_decide_eq_false in Hn. }
  split_and!; try done.
  - apply cache_get_set.
  - intros Hl. simpl in *. rewrite cleaned_small by done.
    split; [done|]. apply cache_get_set.
  - intros Hc Hm. simpl. apply cleaned_keeps_latest; [|done].
    unfold cache_has in Hc. by apply bool_decide_eq_false in Hc.
Qed.

Lemma dismiss_deliveries (toastId : option ToastId) (now : Z) (st : State) :
  deliveries (trace_of (dismiss toastId now st))
  = (λ h, (h, Dismissed toastId, dismissedState toastId now st))
      <$> dismissSubscribers st.
Proof.
  rewrite dismiss_run. unfold deliveries, trace_of. cbn [snd].
  rewrite bind_app. simpl. rewrite app_nil_r.
  assert (∀ ts, onDismissCalls ts
                ≫= (λ x, match x with
                          | Publish e0 seen0 =>
                              (λ h0, (h0, e0, seen0)) <$> channel seen0 e0
                          | _ => []
                          end) = []) as ->.
  { unfold onDismissCalls. induction ts as [|x l IH]; [done|].
    simpl. destruct (toast_onDismiss x); simpl; done. }
  by destruct toastId.
Qed.

(** C7, as the code has it.  Whatever [create], [update] or [dismiss]
    publishes, each subscriber called finds the event already in effect on
    the registry.  For [create] and [update] the registry it finds is the
    final one.  For [dismiss] the active list it finds is the final one, so
    [getToasts] and [getToast] answer as they will after the call; the
    dismissed-id cache it finds is the one the cleanup then starts from. *)
Theorem state_applied_before_publish :
  (∀ title type options now st h e seen,
     (h, e, seen) ∈ deliveries (trace_of (create title type options now st)) →
     happened e seen
     ∧ seen = state_of (create title type options now st))
  ∧ (∀ toastId options st h e seen,
       (h, e, seen) ∈ deliveries (trace_of (update toastId options st)) →
       happened e seen
       ∧ seen = state_of (update toastId options st))
  ∧ (∀ toastId now st h e seen,
       (h, e, seen) ∈ deliveries (trace_of (dismiss toastId now st)) →
       let st' := state_of (dismiss toastId now st) in
       happened e seen
       ∧ getToasts seen = getToasts st'
       ∧ (∀ id, getToast seen id = getToast st' id)
       ∧ st' = with_dismissedToasts seen (cleaned (dismissedToasts seen))).
Proof.
  split_and!.
  - intros title type options now st h e seen.
    destruct (resolveId_run options now st) as (id & n & Hr).
    destruct (cache_has (dismissedToasts (with_toastCount st n)) id) eqn:Hc.
    { rewrite (create_suppressed _ _ _ _ _ _ _ Hr Hc). simpl.
      by intros ?%elem_of_nil. }
    destruct (findIndex id (toasts (with_toastCount st n))) as [[i t]|] eqn:Hf.
    + rewrite (create_existing _ _ _ _ _ _ _ _ _ Hr Hc Hf).
      unfold deliveries, trace_of, state_of. simpl. rewrite app_nil_r.
      intros (h' & [= -> -> ->] & _)%list_elem_of_fmap.
      split; [|done]. unfold happened, getToast. simpl in *.
      by erewrite findIndex_insert.
    + rewrite (create_fresh _ _ _ _ _ _ _ Hr Hc Hf).
      unfold deliveries, trace_of, state_of. simpl. rewrite app_nil_r.
      intros (h' & [= -> -> ->] & _)%list_elem_of_fmap.
      split; [|done]. unfold happened, getToast. simpl in *.
      by erewrite findIndex_snoc.
  - intros toastId options st h e seen.
    destruct (findIndex toastId (toasts st)) as [[i t]|] eqn:Hf.
    + rewrite (update_present _ _ _ _ _ Hf).
      unfold deliveries, trace_of, state_of. simpl. rewrite app_nil_r.
      intros (h' & [= -> -> ->] & _)%list_elem_of_fmap.
      split; [|done]. unfold happened, getToast. simpl.
      by erewrite findIndex_insert.
    + rewrite (update_absent _ _ _ Hf). simpl. by intros ?%elem_of_nil.
  - intros toastId now st h e seen. rewrite dismiss_deliveries.
    intros (h' & [= -> -> ->] & _)%list_elem_of_fmap.
    rewrite dismiss_run. unfold state_of. cbn [fst snd].
    split_and!; try done.
    destruct toastId as [id|]; [|done]. simpl.
    pose proof (dismissedState_seen id now st) as (? & _ & ?). done.
Qed.

(** ** The size of the dismissed-id cache *)

Section CacheSize.
Implicit Types (m : Cache) (k : ToastId) (es : list (ToastId * Z)).

Lemma cache_delete_keys k m :
  (cache_delete k m).*1 = filter (λ k', k' ≠ k) m.*1.
Proof.
  unfold cache_delete. induction m as [|[k0 v0] m IH]; [done|].
  rewrite fmap_cons. simpl. destruct (decide (k0 = k)) as [->|Hne].
  - by rewrite !filter_cons_False by (simpl; naive_solver).
  - rewrite !filter_cons_True by done. rewrite fmap_cons. by f_equal.
Qed.

Lemma cache_delete_absent k m : k ∉ m.*1 → cache_delete k m = m.
Proof.
  unfold cache_delete. induction m as [|[k0 v0] m IH]; [done|].
  rewrite fmap_cons, not_elem_of_cons. simpl. intros [Hne Hm].
  rewrite filter_cons_True by (simpl; congruence). f_equal. auto.
Qed.

Lemma cache_delete_length k m :
  NoDup m.*1 → k ∈ m.*1 → (length (cache_delete k m) + 1 = length m)%nat.
Proof.
  induction m as [|[k0 v0] m IH]; simpl.
  { by intros _ ?%elem_of_nil. }
  rewrite NoDup_cons. intros [Hk0 Hnd] Hin. unfold cache_delete in *.
  destruct (decide (k0 = k)) as [->|Hne].
  - rewrite filter_cons_False by (simpl; naive_solver).
    fold (cache_delete k m). rewrite cache_delete_absent by done. lia.
  - rewrite filter_cons_True by done. simpl.
    apply elem_of_cons in Hin as [?|Hin]; [done|]. rewrite <- IH; done.
Qed.

Lemma foldl_delete_length es m :
  NoDup m.*1 → NoDup es.*1 → es.*1 ⊆ m.*1 →
  (length (foldl (λ m' e, cache_delete e.1 m') m es) + length es
   = length m)%nat.
Proof.
  revert m. induction es as [|e es IH]; intros m Hm Hes Hsub; simpl; [lia|].
  rewrite fmap_cons in Hes, Hsub. apply NoDup_cons in Hes as [He Hes].
  rewrite <- (cache_delete_length e.1 m); [|done|apply Hsub, list_elem_of_here].
  rewrite <- (IH (cache_delete e.1 m)); [lia| |done|].
  - rewrite cache_delete_keys. by apply NoDup_filter.
  - intros k Hk. rewrite cache_delete_keys. apply list_elem_of_filter.
    split; [by intros ->|]. by apply Hsub, list_elem_of_further.
Qed.

(** One cleanup evicts [DISMISSED_CACHE_CLEANUP_THRESHOLD] entries. *)
Lemma cleaned_length m :
  NoDup m.*1 → (DISMISSED_CACHE_MAX_SIZE < length m)%nat →
  (length (cleaned m) + DISMISSED_CACHE_CLEANUP_THRESHOLD = length m)%nat.
Proof.
  intros Hnd Hl. unfold cleaned. rewrite bool_decide_eq_false_2 by lia.
  set (es := take _ _).
  assert (length es = DISMISSED_CACHE_CLEANUP_THRESHOLD) as Hes.
  { unfold es. rewrite length_take, length_sortBy.
    unfold DISMISSED_CACHE_MAX_SIZE, DISMISSED_CACHE_CLEANUP_THRESHOLD in *. lia. }
  rewrite <- Hes. apply foldl_delete_length; [done|..].
  - eapply sublist_NoDup; [|apply fmap_sublist, sublist_take].
    by rewrite sortBy_Permutation.
  - intros k Hk. eapply elem_of_sublist in Hk; [|apply fmap_sublist, sublist_take].
    by rewrite sortBy_Permutation in Hk.
Qed.




End CacheSize.

(** ** [promise] *)

Section PromiseFacts.
Context {T E : Type}.
Implicit Types (p : Settled T E) (data : PromiseData T E)
  (options : option ToastOptions) (st : State).

Lemma promise_settle_run id p data options st :
  let upd := settledUpdate id p data options st in
  promise_settle id p data options st
  = (settledResult p, state_of upd, trace_of upd ++ finallyCalls data).
Proof.
  unfold promise_settle, tryCatchFinally, await, settledUpdate, settledResult,
    callFinally, finallyCalls, state_of, trace_of.
  destruct p as [result|error]; cbv [mbind M_bind mret M_ret emit];
    destruct (update _ _ st) as [[ok st1] tr1];
    destruct (data_finally data); simpl; by rewrite ?app_nil_r.
Qed.

Lemma promise_run work p data options now (meanwhile : M unit) st :
  work = APromise p ∨ work = AFunction (inr p) →
  let c := create (data_loading data) TLoading
             (Some (loadingOptions options)) now st in
  let m := meanwhile (state_of c) in
  let s := promise_settle (result_of c) p data options (state_of m) in
  promise work data options now meanwhile st
  = (result_of s, state_of s, trace_of c ++ trace_of m ++ trace_of s).
Proof.
  intros Hw. unfold promise, state_of, trace_of, result_of.
  cbv [mbind M_bind].
  destruct (create _ _ _ _ st) as [[id st1] tr1]. simpl.
  destruct Hw as [-> | ->];
    destruct (meanwhile st1) as [[[] st2] tr2]; simpl;
    destruct (promise_settle _ _ _ _ st2) as [[r st3] tr3]; done.
Qed.

(** A work function that throws before it returns a promise: the call is
    outside the [try], so the loading toast is left as created and
    [data.finally] is not called. *)
Lemma promise_work_throws thrown data options now (meanwhile : M unit) st :
  let c := create (data_loading data) TLoading
             (Some (loadingOptions options)) now st in
  promise (AFunction (inl thrown)) data options now meanwhile st
  = (inl thrown, state_of c, trace_of c).
Proof.
  unfold promise, state_of, trace_of. cbv [mbind M_bind mret M_ret].
  destruct (create _ _ _ _ st) as [[id st1] tr1]. simpl.
  by rewrite app_nil_r.
Qed.

End PromiseFacts.

(** ** Invariants of the registry *)

(** No operation makes two active toasts share an id. *)
Lemma create_wf title type options now st :
  wf st → wf (state_of (create title type options now st)).
Proof.
  intros Hwf. destruct (resolveId_run options now st) as (id & n & Hr).
  destruct (cache_has (dismissedToasts (with_toastCount st n)) id) eqn:Hc.
  { by rewrite (create_suppressed _ _ _ _ _ _ _ Hr Hc). }
  destruct (findIndex id (toasts (with_toastCount st n))) as [[i t]|] eqn:Hf.
  - rewrite (create_existing _ _ _ _ _ _ _ _ _ Hr Hc Hf).
    unfold wf, state_of. simpl in *.
    apply findIndex_Some_inv in Hf as [Hi Ht].
    by erewrite ids_insert.
  - rewrite (create_fresh _ _ _ _ _ _ _ Hr Hc Hf).
    unfold wf, state_of. simpl in *. rewrite fmap_app. simpl.
    apply NoDup_app. split_and!; [done| |apply NoDup_singleton].
    intros x Hx ->%list_elem_of_singleton. by apply findIndex_None in Hf.
Qed.

Lemma update_wf toastId options st :
  wf st → wf (state_of (update toastId options st)).
Proof.
  intros Hwf. destruct (findIndex toastId (toasts st)) as [[i t]|] eqn:Hf.
  - rewrite (update_present _ _ _ _ _ Hf). unfold wf, state_of. simpl.
    apply findIndex_Some_inv in Hf as [Hi Ht]. by erewrite ids_insert.
  - by rewrite (update_absent _ _ _ Hf).
Qed.

Lemma dismiss_wf toastId now st :
  wf st → wf (state_of (dismiss toastId now st)).
Proof.
  intros Hwf. rewrite dismiss_run. unfold wf, state_of.
  destruct toastId as [id|]; simpl; [|constructor].
  eapply sublist_NoDup; [done|]. apply fmap_sublist, sublist_filter.
Qed.

(** ** Bulk dismissal and the size of the cache *)

Lemma createEach_fresh (ids : list Z) (now : Z) (st : State) :
  NoDup ids →
  (∀ i, i ∈ ids → IdNum i ∉ toast_id <$> toasts st) →
  (∀ i, i ∈ ids → IdNum i ∉ (dismissedToasts st).*1) →
  let st' := createEach ids now st in
  toast_id <$> toasts st' = (toast_id <$> toasts st) ++ (IdNum <$> ids)
  ∧ dismissedToasts st' = dismissedToasts st.
Proof.
  intros Hnd. revert st.
  induction Hnd as [|i ids Hi Hnd IH]; intros st Hact Hdis; simpl.
  { by rewrite app_nil_r. }
  assert (create (Some (CText "t")) TDefault (Some (withId (IdNum i))) now st
          = (IdNum i,
             with_toasts st
               (toasts st ++ [newToast (Some (withId (IdNum i))) (IdNum i)
                                TDefault (Some (CText "t")) now]),
             [Publish (Created (newToast (Some (withId (IdNum i))) (IdNum i)
                                  TDefault (Some (CText "t")) now))
                (with_toasts st
                   (toasts st ++ [newToast (Some (withId (IdNum i))) (IdNum i)
                                    TDefault (Some (CText "t")) now]))]))
    as Hc.
  { apply create_fresh; [done|..].
    - apply bool_decide_eq_false, Hdis, list_elem_of_here.
    - apply findIndex_None, Hact, list_elem_of_here. }
  unfold createEach in *. simpl. rewrite Hc. unfold state_of at 2 4. simpl.
  destruct (IH (with_toasts st
                  (toasts st ++ [newToast (Some (withId (IdNum i))) (IdNum i)
                                   TDefault (Some (CText "t")) now])))
    as [Hids Hcache].
  - intros j Hj. simpl. rewrite fmap_app, not_elem_of_app. simpl. split.
    + by apply Hact, list_elem_of_further.
    + rewrite list_elem_of_singleton. intros [= ->]. done.
  - intros j Hj. simpl. by apply Hdis, list_elem_of_further.
  - rewrite Hids, Hcache. simpl. rewrite fmap_app. simpl.
    by rewrite <- app_assoc.
Qed.

Lemma foldl_cache_set_keys (ts : list ToastT) (now : Z) (m : Cache) :
  NoDup (m.*1 ++ (toast_id <$> ts)) →
  (foldl (λ m' t, cache_set (toast_id t) now m') m ts).*1
  = m.*1 ++ (toast_id <$> ts).
Proof.
  revert m. induction ts as [|t ts IH]; intros m Hnd; simpl.
  { by rewrite app_nil_r. }
  assert (toast_id t ∉ m.*1) as Hfresh.
  { apply NoDup_app in Hnd as (_ & Hdisj & _). intros Hin.
    apply (Hdisj _ Hin), list_elem_of_here. }
  rewrite IH; rewrite cache_set_keys, bool_decide_eq_false_2 by done;
    rewrite <- app_assoc; done.
Qed.

(** However large a bound, a registry that has never dismissed anything
    holds more dismissed ids than that after one [dismiss()] of enough
    toasts. *)
Lemma dismiss_all_outgrows (bound : nat) :
  let st := createEach (seqZ 1 (Z.of_nat bound + 151)) 0 initialState in
  (bound < length (dismissedToasts (state_of (dismiss None 0 st))))%nat.
Proof.
  intros st.
  destruct (createEach_fresh (seqZ 1 (Z.of_nat bound + 151)) 0 initialState)
    as [Hids Hcache].
  { apply NoDup_seqZ. }
  { intros i _. simpl. apply not_elem_of_nil. }
  { intros i _. simpl. apply not_elem_of_nil. }
  fold st in Hids, Hcache. simpl in Hids, Hcache.
  assert (NoDup (toast_id <$> toasts st)) as Hnd.
  { rewrite Hids. apply NoDup_fmap_2; [|apply NoDup_seqZ].
    by intros x y [= ->]. }
  rewrite dismiss_run. unfold state_of. simpl. rewrite Hcache.
  pose proof (foldl_cache_set_keys (toasts st) 0 []) as Hkeys.
  simpl in Hkeys. specialize (Hkeys Hnd).
  pose proof (cleaned_length
                (foldl (λ m t, cache_set (toast_id t) 0 m) [] (toasts st))) as Hc.
  rewrite Hkeys in Hc. specialize (Hc Hnd).
  assert (length (foldl (λ m t, cache_set (toast_id t) 0 m) [] (toasts st))
          = (bound + 151)%nat) as Hlen.
  { rewrite <- (length_fmap fst), Hkeys, Hids, length_fmap, length_seqZ. lia. }
  unfold DISMISSED_CACHE_MAX_SIZE, DISMISSED_CACHE_CLEANUP_THRESHOLD in *.
  rewrite Hlen in Hc. specialize (Hc ltac:(lia)). lia.
Qed.

(** * The properties on sample registries *)

(** C8.  After [toast.dismiss()] on a registry with 151 active toasts and
    nothing dismissed before, the cache holds 101 ids: one cleanup has
    evicted [DISMISSED_CACHE_CLEANUP_THRESHOLD] of the 151, and what is left
    is more than [DISMISSED_CACHE_MAX_SIZE]. *)
Theorem dismiss_all_exceeds_max :
  length (toasts crowded) = 151%nat
  ∧ dismissedToasts crowded = []
  ∧ length (dismissedToasts crowdedDismissed) = 101%nat
  ∧ (DISMISSED_CACHE_MAX_SIZE < length (dismissedToasts crowdedDismissed))%nat.
Proof.
  assert (length (dismissedToasts crowdedDismissed) = 101%nat) as Hl
    by (vm_compute; reflexivity).
  split_and!; [vm_compute; reflexivity..|].
  rewrite Hl. unfold DISMISSED_CACHE_MAX_SIZE. lia.
Qed.

Lemma create_dismissed_id_is_noop_witness :
  ∃ st' tr,
    create (Some (CText "again")) TSuccess (Some (withId (IdNum 1))) 200 fullCache
    = (IdNum 1, st', tr)
    ∧ getToasts st' = getToasts fullCache
    ∧ st' = fullCache
    ∧ events tr = []
    ∧ tr = [].
Proof.
  apply (create_dismissed_id_is_noop (IdNum 1)); vm_compute; reflexivity.
Defined.

(** C2 as stated fails: a second [create] under the id of an active toast
    stores a record with the time of the second call, not the [createdAt] of
    the toast it replaces. *)
Lemma create_existing_id_createdAt_counterexample :
  let again :=
    create (Some (CText "u")) TDefault (Some (withId (IdNum 1))) 2 oneToast in
  ∃ T T',
    getToast oneToast (IdNum 1) = Some T
    ∧ cache_has (dismissedToasts oneToast) (IdNum 1) = false
    ∧ result_of again = IdNum 1
    ∧ getToast (state_of again) (IdNum 1) = Some T'
    ∧ toast_createdAt T = 1
    ∧ toast_createdAt T' = 2
    ∧ toast_createdAt T' ≠ toast_createdAt T.
Proof.
  eexists _, _. split_and!; [vm_compute; reflexivity..|].
  vm_compute. discriminate.
Qed.

Lemma create_existing_id_replaces_witness :
  let toast :=
    newToast (Some (withId (IdNum 1))) (IdNum 1) TDefault (Some (CText "u")) 2 in
  ∃ st',
    create (Some (CText "u")) TDefault (Some (withId (IdNum 1))) 2 oneToast
    = (IdNum 1, st', [Publish (Updated toast) st'])
    ∧ events [Publish (Updated toast) st'] = [Updated toast]
    ∧ filter (λ t, toast_id t = IdNum 1) (getToasts st') = [toast]
    ∧ getToast st' (IdNum 1) = Some toast
    ∧ length (getToasts st') = length (getToasts oneToast)
    ∧ toast_createdAt toast = 2
    ∧ wf st'.
Proof.
  apply (create_existing_id_replaces _ _ _ _ oneToast oneToast (IdNum 1)
           (newToast (Some (withId (IdNum 1))) (IdNum 1) TDefault
              (Some (CText "t")) 1)).
  - reflexivity.
  - unfold wf. simpl. apply NoDup_singleton.
  - reflexivity.
  - reflexivity.
Defined.

Lemma update_preserves_identity_witness :
  isActive oneToast (IdNum 2) = false
  ∧ update (IdNum 2) (withTitle (Some (CText "x"))) oneToast = (false, oneToast, [])
  ∧ ∃ st' T',
      update (IdNum 1) (withTitle (Some (CText "x"))) oneToast
      = (true, st', [Publish (Updated T') st'])
      ∧ getToast st' (IdNum 1) = Some T'
      ∧ toast_id T' = IdNum 1
      ∧ toast_createdAt T' = 1.
Proof.
  split_and!.
  - reflexivity.
  - apply (proj1 (update_preserves_identity (IdNum 2) _ oneToast)). reflexivity.
  - apply (proj2 (update_preserves_identity (IdNum 1)
                    (withTitle (Some (CText "x"))) oneToast)
             (newToast (Some (withId (IdNum 1))) (IdNum 1) TDefault
                (Some (CText "t")) 1)).
    reflexivity.
Defined.

(** C9 as stated fails for an empty title: [update(1, { title: "" })] stores
    the empty string, not the prior title. *)
Lemma update_empty_title_counterexample :
  let upd := update (IdNum 1) (withTitle (Some (CText ""))) oneToast in
  ∃ T T',
    getToast oneToast (IdNum 1) = Some T
    ∧ result_of upd = true
    ∧ getToast (state_of upd) (IdNum 1) = Some T'
    ∧ toast_title T = Some (CText "t")
    ∧ toast_title T' = Some (CText "")
    ∧ toast_title T' ≠ toast_title T.
Proof.
  eexists _, _. split_and!; [vm_compute; reflexivity..|].
  vm_compute. discriminate.
Qed.

Lemma update_field_defaults_witness :
  ∃ st' T' tr,
    update (IdNum 1) (withTitle (Some CNull)) oneToast = (true, st', tr)
    ∧ getToast st' (IdNum 1) = Some T'
    ∧ toast_type T' = TDefault
    ∧ toast_title T' = Some (CText "t").
Proof.
  destruct (update_field_defaults (IdNum 1) (withTitle (Some CNull)) oneToast
              (newToast (Some (withId (IdNum 1))) (IdNum 1) TDefault
                 (Some (CText "t")) 1) eq_refl)
    as (st' & T' & tr & Hu & HT' & Hty & _ & Htitle & _).
  exists st', T', tr. split_and!; [done|done|..].
  - by apply Hty.
  - apply Htitle. by right.
Defined.

Lemma capacity_keeps_important_in_order_witness :
  let sorted := [plainToast 5 50 false; plainToast 4 40 false;
                 plainToast 3 30 false; plainToast 2 20 false;
                 plainToast 1 10 true] in
  (0 ≤ 0 → visibleToastList sorted 0 = sorted)
  ∧ filter (λ t, is_important t = true) (visibleToastList sorted 3)
    = [plainToast 1 10 true]
  ∧ visibleToastList sorted 3 `sublist_of` sorted.
Proof.
  intros sorted. split_and!.
  - apply (capacity_keeps_important_in_order sorted 0).
  - apply (proj1 (capacity_keeps_important_in_order sorted 3)).
  - apply (proj1 (proj2 (capacity_keeps_important_in_order sorted 3))).
Defined.

(** C5 as stated fails when the cleanup that ends the call evicts the id it
    has just recorded: after [toast.dismiss()] of 151 toasts,
    [toast.dismiss(51)] in the same millisecond leaves 51 out of the
    cache. *)
Lemma dismiss_unknown_id_evicted_counterexample :
  let st' := state_of (dismiss (Some (IdNum 51)) 0 crowdedDismissed) in
  isActive crowdedDismissed (IdNum 51) = false
  ∧ cache_get (dismissedToasts st') (IdNum 51) = None
  ∧ cache_has (dismissedToasts st') (IdNum 51) = false.
Proof. split_and!; vm_compute; reflexivity. Qed.

Lemma dismiss_unknown_id_witness :
  ∃ seen st',
    dismiss (Some (IdNum 2)) 5 oneToast
    = (tt, st', [Publish (Dismissed (Some (IdNum 2))) seen])
    ∧ getToasts st' = getToasts oneToast
    ∧ cache_get (dismissedToasts seen) (IdNum 2) = Some 5
    ∧ cache_get (dismissedToasts st') (IdNum 2) = Some 5.
Proof.
  destruct (dismiss_unknown_id (IdNum 2) 5 oneToast eq_refl)
    as (seen & st' & Hd & Hl & _ & Hseen & _ & _ & Hkept).
  exists seen, st'. split_and!; [done..|].
  apply Hkept; [reflexivity|]. apply Forall_nil_2.
Defined.

(** C7 as stated fails for the dismissed-id cache: the subscriber of the
    101st dismissal is called with 101 ids in the cache, the oldest among
    them, and the call returns with 51, the oldest evicted. *)
Lemma dismiss_publishes_before_cleanup_counterexample :
  let r := dismiss (Some (IdNum 101)) 101 fullCache in
  ∃ h e seen,
    (h, e, seen) ∈ deliveries (trace_of r)
    ∧ length (dismissedToasts seen) = 101%nat
    ∧ length (dismissedToasts (state_of r)) = 51%nat
    ∧ cache_has (dismissedToasts seen) (IdNum 1) = true
    ∧ cache_has (dismissedToasts (state_of r)) (IdNum 1) = false
    ∧ seen ≠ state_of r.
Proof.
  intros r.
  exists 7%nat, (Dismissed (Some (IdNum 101))), (dismissedState (Some (IdNum 101)) 101 fullCache).
  assert (cache_has
            (dismissedToasts (dismissedState (Some (IdNum 101)) 101 fullCache))
            (IdNum 1) = true) as Hseen by (vm_compute; reflexivity).
  assert (cache_has (dismissedToasts (state_of r)) (IdNum 1) = false) as Hfin
    by (vm_compute; reflexivity).
  split_and!.
  - subst r. rewrite dismiss_deliveries. apply list_elem_of_fmap.
    exists 7%nat. split; [reflexivity|]. vm_compute. apply list_elem_of_here.
  - vm_compute; reflexivity.
  - vm_compute; reflexivity.
  - exact Hseen.
  - exact Hfin.
  - intros Heq. rewrite Heq in Hseen. congruence.
Qed.

Lemma state_applied_before_publish_witness :
  let r := dismiss (Some (IdNum 101)) 101 fullCache in
  let seen := dismissedState (Some (IdNum 101)) 101 fullCache in
  (7%nat, Dismissed (Some (IdNum 101)), seen) ∈ deliveries (trace_of r)
  ∧ happened (Dismissed (Some (IdNum 101))) seen
  ∧ getToasts seen = getToasts (state_of r).
Proof.
  intros r seen.
  assert ((7%nat, Dismissed (Some (IdNum 101)), seen) ∈ deliveries (trace_of r))
    as Hin.
  { subst r. rewrite dismiss_deliveries. apply list_elem_of_fmap.
    exists 7%nat. split; [reflexivity|]. vm_compute. apply list_elem_of_here. }
  split; [exact Hin|].
  destruct (proj2 (proj2 state_applied_before_publish) _ _ _ _ _ _ Hin)
    as (Hh & Hg & _).
  exact (conj Hh Hg).
Defined.

Lemma bottom_anchor_keeps_oldest_witness :
  let toasts := [plainToast 1 10 false; plainToast 2 20 false;
                 plainToast 3 30 false; plainToast 4 40 false;
                 plainToast 5 50 false] in
  length (selector toasts None BottomCenter 3) = 3%nat
  ∧ length (selector toasts None TopCenter 3) = 3%nat.
Proof.
  intros toasts. split.
  - apply (bottom_anchor_keeps_oldest toasts None BottomCenter 3);
      [lia|simpl; lia|repeat constructor].
  - apply (bottom_anchor_keeps_oldest toasts None TopCenter 3);
      [lia|simpl; lia|repeat constructor].
Defined.

(** Five toasts, none important, limit 3: the three newest, newest first,
    on a top-anchored surface; the three oldest, oldest first, on a
    bottom-anchored one. *)
Example five_toasts_limit_three :
  let toasts := [plainToast 1 10 false; plainToast 2 20 false;
                 plainToast 3 30 false; plainToast 4 40 false;
                 plainToast 5 50 false] in
  toast_id <$> selector toasts None TopCenter 3 = [IdNum 5; IdNum 4; IdNum 3]
  ∧ toast_id <$> selector toasts None BottomCenter 3
    = [IdNum 1; IdNum 2; IdNum 3].
Proof. split; vm_compute; reflexivity. Qed.


(** ** Scenarios of the specification *)

(** A first toast: a generated id, one active toast, one create event. *)
Example first_toast :
  let r := create (Some (CText "Saved")) TDefault None 1000 initialState in
  result_of r = IdStr "sonner-1-1000"
  ∧ length (getToasts (state_of r)) = 1%nat
  ∧ events (trace_of r)
    = [Created (newToast None (IdStr "sonner-1-1000") TDefault
                  (Some (CText "Saved")) 1000)].
Proof. split_and!; vm_compute; reflexivity. Qed.

(** The same id twice: one active toast, the second title, an update event
    and no second create event. *)
Example same_id_twice :
  let r := create (Some (CText "u")) TDefault (Some (withId (IdNum 1))) 2
             oneToast in
  length (getToasts (state_of r)) = 1%nat
  ∧ toast_title <$> getToast (state_of r) (IdNum 1) = Some (Some (CText "u"))
  ∧ events (trace_of r)
    = [Updated (newToast (Some (withId (IdNum 1))) (IdNum 1) TDefault
                  (Some (CText "u")) 2)].
Proof. split_and!; vm_compute; reflexivity. Qed.

(** [dismiss()] empties the active list and caches every id that was
    active. *)
Lemma dismiss_all_clears (now : Z) (st : State) :
  NoDup ((dismissedToasts st).*1 ++ (toast_id <$> toasts st)) →
  let seen := dismissedState None now st in
  getToasts (state_of (dismiss None now st)) = []
  ∧ ∀ t, t ∈ toasts st → cache_has (dismissedToasts seen) (toast_id t) = true.
Proof.
  intros Hnd seen. rewrite dismiss_run. split; [done|].
  intros t Ht. unfold cache_has. apply bool_decide_eq_true.
  subst seen. simpl. rewrite foldl_cache_set_keys by done.
  apply elem_of_app. right. apply list_elem_of_fmap. eauto.
Qed.

(** X16.  Without a limit, the bottom-anchored selection reversed is the
    top-anchored one. *)
Lemma bottom_reversed_is_top (toasts : list ToastT) (toasterId : option string)
    (bottom top : Position) (n : Z) :
  startsWith_bottom bottom = true → startsWith_bottom top = false → n ≤ 0 →
  reverse (selector toasts toasterId bottom n) = selector toasts toasterId top n.
Proof.
  intros Hb Ht Hn. unfold selector, visibleToastList, sortedToasts.
  rewrite !bool_decide_eq_true_2 by done. rewrite Hb, Ht.
  apply reverse_involutive.
Qed.

(** * More of the registry *)

(** ** One id at a time *)

Lemma snd_shift {A} (o : option (nat * A)) :
  snd <$> (prod_map S id <$> o) = snd <$> o.
Proof. by destruct o as [[]|]. Qed.

Lemma findIndex_cons (id : ToastId) (x : ToastT) (l : list ToastT) :
  snd <$> findIndex id (x :: l)
  = if decide (toast_id x = id) then Some x else snd <$> findIndex id l.
Proof.
  unfold findIndex. simpl. destruct (decide (toast_id x = id)); [done|].
  apply snd_shift.
Qed.

Lemma findIndex_insert_other (id' : ToastId) (l : list ToastT) (i : nat)
    (t t' : ToastT) :
  l !! i = Some t → toast_id t ≠ id' → toast_id t' ≠ id' →
  snd <$> findIndex id' (<[i:=t']> l) = snd <$> findIndex id' l.
Proof.
  intros Hi Ht Ht'. revert i Hi.
  induction l as [|x l IH]; intros [|i] Hi; simpl in Hi; try done.
  - injection Hi as ->. change (<[0%nat:=t']> (t :: l)) with (t' :: l).
    rewrite !findIndex_cons. by rewrite !decide_False by done.
  - change (<[S i:=t']> (x :: l)) with (x :: <[i:=t']> l).
    rewrite !findIndex_cons. destruct (decide (toast_id x = id')); [done|].
    by apply IH.
Qed.

Lemma findIndex_snoc_other (id' : ToastId) (l : list ToastT) (t : ToastT) :
  toast_id t ≠ id' →
  snd <$> findIndex id' (l ++ [t]) = snd <$> findIndex id' l.
Proof.
  intros Ht. induction l as [|x l IH]; cbn [app].
  - rewrite findIndex_cons. by rewrite decide_False by done.
  - rewrite !findIndex_cons. by destruct (decide (toast_id x = id')).
Qed.

Lemma findIndex_filter_other (id id' : ToastId) (l : list ToastT) :
  id' ≠ id →
  snd <$> findIndex id' (filter (λ t, toast_id t ≠ id) l)
  = snd <$> findIndex id' l.
Proof.
  intros Hne. induction l as [|x l IH]; [done|].
  destruct (decide (toast_id x = id)) as [Hx|Hx].
  - rewrite filter_cons_False by (intros ?; done).
    rewrite findIndex_cons, decide_False by congruence. done.
  - rewrite filter_cons_True by done. rewrite !findIndex_cons.
    by destruct (decide (toast_id x = id')).
Qed.

Lemma create_keeps (title : option Content) (type : ToastType)
    (options : option ToastOptions) (now : Z) (st : State) :
  let st' := state_of (create title type options now st) in
  dismissedToasts st' = dismissedToasts st
  ∧ subscribers st' = subscribers st
  ∧ dismissSubscribers st' = dismissSubscribers st
  ∧ updateSubscribers st' = updateSubscribers st.
Proof.
  destruct (resolveId_run options now st) as (id & n & Hr).
  destruct (cache_has (dismissedToasts (with_toastCount st n)) id) eqn:Hc.
  { by rewrite (create_suppressed _ _ _ _ _ _ _ Hr Hc). }
  destruct (findIndex id (toasts (with_toastCount st n))) as [[i t]|] eqn:Hf.
  - by rewrite (create_existing _ _ _ _ _ _ _ _ _ Hr Hc Hf).
  - by rewrite (create_fresh _ _ _ _ _ _ _ Hr Hc Hf).
Qed.

Lemma update_keeps (toastId : ToastId) (options : ToastOptions) (st : State) :
  let st' := state_of (update toastId options st) in
  dismissedToasts st' = dismissedToasts st
  ∧ subscribers st' = subscribers st
  ∧ dismissSubscribers st' = dismissSubscribers st
  ∧ updateSubscribers st' = updateSubscribers st
  ∧ toastCount st' = toastCount st.
Proof.
  destruct (findIndex toastId (toasts st)) as [[i t]|] eqn:Hf.
  - by rewrite (update_present _ _ _ _ _ Hf).
  - by rewrite (update_absent _ _ _ Hf).
Qed.

Lemma dismiss_keeps (toastId : option ToastId) (now : Z) (st : State) :
  let st' := state_of (dismiss toastId now st) in
  subscribers st' = subscribers st
  ∧ dismissSubscribers st' = dismissSubscribers st
  ∧ updateSubscribers st' = updateSubscribers st
  ∧ toastCount st' = toastCount st.
Proof. rewrite dismiss_run. by destruct toastId. Qed.

(** X1.  [create] under an id that is neither dismissed nor active adds one
    toast at the end of the active list: the list is the old one followed by
    the new record, [getToast] finds the record under the id, one create
    event carries it, and the cache and the subscribers are as they were. *)
Theorem create_new_id_appends (title : option Content) (type : ToastType)
    (options : ToastOptions) (now : Z) (st : State) (id : ToastId) :
  read (opt_id options) = Some id →
  cache_has (dismissedToasts st) id = false →
  isActive st id = false →
  let toast := newToast (Some options) id type title now in
  let r := create title type (Some options) now st in
  result_of r = id
  ∧ getToasts (state_of r) = getToasts st ++ [toast]
  ∧ getToast (state_of r) id = Some toast
  ∧ isActive (state_of r) id = true
  ∧ events (trace_of r) = [Created toast]
  ∧ dismissedToasts (state_of r) = dismissedToasts st
  ∧ toastCount (state_of r) = toastCount st.
Proof.
  intros Hid Hc Hact toast r. apply isActive_false in Hact.
  assert (r = (id, with_toasts st (toasts st ++ [toast]),
               [Publish (Created toast) (with_toasts st (toasts st ++ [toast]))]))
    as ->.
  { subst r. apply create_fresh; [by apply resolveId_given|done..]. }
  unfold result_of, state_of, trace_of. simpl.
  assert (getToast (with_toasts st (toasts st ++ [toast])) id = Some toast) as Hg.
  { unfold getToast. simpl. by erewrite findIndex_snoc. }
  split_and!; try done.
  apply getToast_isActive. by rewrite Hg.
Qed.

(** X2.  [create], [update] and [dismiss] under one id leave the toast
    stored under every other id as it was; [create] and [update] also leave
    the dismissed-id cache as it was. *)
Theorem other_toasts_untouched (id id' : ToastId) (st : State) :
  id' ≠ id →
  (∀ title type options now,
     read (opt_id options) = Some id →
     let st' := state_of (create title type (Some options) now st) in
     getToast st' id' = getToast st id'
     ∧ dismissedToasts st' = dismissedToasts st)
  ∧ (∀ options,
       let st' := state_of (update id options st) in
       getToast st' id' = getToast st id'
       ∧ dismissedToasts st' = dismissedToasts st)
  ∧ (∀ now,
       getToast (state_of (dismiss (Some id) now st)) id' = getToast st id').
Proof.
  intros Hne. split_and!.
  - intros title type options now Hid st'.
    split; [|apply create_keeps]. subst st'.
    pose proof (resolveId_given options id now st Hid) as Hr.
    destruct (cache_has (dismissedToasts st) id) eqn:Hc.
    { by rewrite (create_suppressed _ _ _ _ _ _ _ Hr Hc). }
    destruct (findIndex id (toasts st)) as [[i t]|] eqn:Hf.
    + rewrite (create_existing _ _ _ _ _ _ _ _ _ Hr Hc Hf).
      apply findIndex_Some_inv in Hf as [Hi Ht].
      unfold state_of, getToast. simpl.
      eapply findIndex_insert_other; [done|simpl; congruence..].
    + rewrite (create_fresh _ _ _ _ _ _ _ Hr Hc Hf).
      unfold state_of, getToast. simpl.
      apply findIndex_snoc_other. simpl. congruence.
  - intros options st'. split; [|apply update_keeps]. subst st'.
    destruct (findIndex id (toasts st)) as [[i t]|] eqn:Hf.
    + rewrite (update_present _ _ _ _ _ Hf).
      apply findIndex_Some_inv in Hf as [Hi Ht].
      unfold state_of, getToast. simpl.
      eapply findIndex_insert_other; [done|simpl; congruence..].
    + by rewrite (update_absent _ _ _ Hf).
  - intros now. rewrite dismiss_run. unfold state_of, getToast. simpl.
    by apply findIndex_filter_other.
Qed.

(** ** Sequences of calls *)

Lemma bind_run {A B} (m : M A) (k : A → M B) (st : State) :
  (m ≫= k) st
  = (result_of (k (result_of (m st)) (state_of (m st))),
     state_of (k (result_of (m st)) (state_of (m st))),
     trace_of (m st) ++ trace_of (k (result_of (m st)) (state_of (m st)))).
Proof.
  cbv [mbind M_bind result_of state_of trace_of].
  destruct (m st) as [[a st1] tr1]. simpl. by destruct (k a st1) as [[b st2] tr2].
Qed.

Lemma request_state (r : Request) (st : State) :
  state_of (request r st)
  = match r with
    | DoCreate title type options now =>
        state_of (create title type options now st)
    | DoUpdate toastId options => state_of (update toastId options st)
    | DoDismiss toastId now => state_of (dismiss toastId now st)
    | DoClearDismissedHistory => with_dismissedToasts st []
    end.
Proof. destruct r; try done; unfold request; by rewrite bind_run. Qed.

Lemma request_trace (r : Request) (st : State) :
  trace_of (request r st)
  = match r with
    | DoCreate title type options now =>
        trace_of (create title type options now st)
    | DoUpdate toastId options => trace_of (update toastId options st)
    | DoDismiss toastId now => trace_of (dismiss toastId now st)
    | DoClearDismissedHistory => []
    end.
Proof.
  destruct r; try done; unfold request; rewrite bind_run;
    unfold trace_of at 1; simpl; by rewrite app_nil_r.
Qed.

Lemma requests_cons (r : Request) (rs : list Request) (st : State) :
  state_of (requests (r :: rs) st) = state_of (requests rs (state_of (request r st)))
  ∧ trace_of (requests (r :: rs) st)
    = trace_of (request r st) ++ trace_of (requests rs (state_of (request r st))).
Proof. unfold requests. simpl. by rewrite bind_run. Qed.

Lemma foldl_delete_sublist (es : list (ToastId * Z)) (m : Cache) :
  foldl (λ m' e, cache_delete e.1 m') m es `sublist_of` m.
Proof.
  revert m. induction es as [|e es IH]; intros m; simpl; [done|].
  etrans; [apply IH|]. apply sublist_filter.
Qed.

Lemma cleaned_sublist (m : Cache) : cleaned m `sublist_of` m.
Proof.
  unfold cleaned. case_bool_decide; [done|]. apply foldl_delete_sublist.
Qed.

Lemma create_ids (title : option Content) (type : ToastType)
    (options : option ToastOptions) (now : Z) (st : State) :
  let st' := state_of (create title type options now st) in
  toast_id <$> toasts st' = toast_id <$> toasts st
  ∨ ∃ id, toast_id <$> toasts st' = (toast_id <$> toasts st) ++ [id]
          ∧ (id ∉ toast_id <$> toasts st)
          ∧ (id ∉ (dismissedToasts st).*1).
Proof.
  destruct (resolveId_run options now st) as (id & n & Hr).
  destruct (cache_has (dismissedToasts (with_toastCount st n)) id) eqn:Hc.
  { left. by rewrite (create_suppressed _ _ _ _ _ _ _ Hr Hc). }
  destruct (findIndex id (toasts (with_toastCount st n))) as [[i t]|] eqn:Hf.
  - left. rewrite (create_existing _ _ _ _ _ _ _ _ _ Hr Hc Hf).
    apply findIndex_Some_inv in Hf as [Hi Ht]. unfold state_of. simpl in *.
    by erewrite ids_insert.
  - right. exists id. rewrite (create_fresh _ _ _ _ _ _ _ Hr Hc Hf).
    unfold state_of. simpl in *. rewrite fmap_app. split_and!; [done|..].
    + by apply findIndex_None.
    + unfold cache_has in Hc. by apply bool_decide_eq_false in Hc.
Qed.

Lemma update_ids (toastId : ToastId) (options : ToastOptions) (st : State) :
  toast_id <$> toasts (state_of (update toastId options st))
  = toast_id <$> toasts st.
Proof.
  destruct (findIndex toastId (toasts st)) as [[i t]|] eqn:Hf.
  - rewrite (update_present _ _ _ _ _ Hf).
    apply findIndex_Some_inv in Hf as [Hi Ht]. unfold state_of. simpl.
    by erewrite ids_insert.
  - by rewrite (update_absent _ _ _ Hf).
Qed.

Lemma foldl_cache_set_NoDup (ts : list ToastT) (now : Z) (m : Cache) :
  NoDup m.*1 → NoDup (foldl (λ m' t, cache_set (toast_id t) now m') m ts).*1.
Proof.
  revert m. induction ts as [|t ts IH]; intros m Hm; simpl; [done|].
  by apply IH, cache_set_NoDup.
Qed.

Lemma request_consistent (r : Request) (st : State) :
  consistent st → consistent (state_of (request r st)).
Proof.
  intros (Hids & Hkeys & Hdisj & Hs1 & Hs2 & Hs3). rewrite request_state.
  destruct r as [title type options now|toastId options|toastId now|];
    unfold consistent.
  - destruct (create_keeps title type options now st) as (-> & -> & -> & ->).
    split_and!; try done; [by apply create_wf|].
    intros id. destruct (create_ids title type options now st)
      as [->|(id0 & -> & _ & Hid0)]; [by apply Hdisj|].
    rewrite elem_of_app, list_elem_of_singleton. intros [?| ->]; auto.
  - destruct (update_keeps toastId options st) as (-> & -> & -> & -> & _).
    by rewrite update_ids.
  - destruct (dismiss_keeps toastId now st) as (-> & -> & -> & _).
    split_and!; try done; [by apply dismiss_wf|..];
      rewrite dismiss_run; unfold state_of; destruct toastId as [id|]; simpl.
    + eapply sublist_NoDup; [|apply fmap_sublist, cleaned_sublist].
      by apply cache_set_NoDup.
    + eapply sublist_NoDup; [|apply fmap_sublist, cleaned_sublist].
      by apply foldl_cache_set_NoDup.
    + intros id' (t & -> & [Hne Ht]%list_elem_of_filter)%list_elem_of_fmap Hin.
      eapply elem_of_sublist in Hin; [|apply fmap_sublist, cleaned_sublist].
      rewrite cache_set_keys in Hin. apply (Hdisj (toast_id t)).
      * apply list_elem_of_fmap. eauto.
      * case_bool_decide; [done|].
        apply elem_of_app in Hin as [?|Hin%list_elem_of_singleton]; done.
    + by intros id' ?%elem_of_nil.
  - split_and!; try done; simpl; [constructor|]. intros id _. apply not_elem_of_nil.
Qed.

Lemma set_add_NoDup (h : Handle) (s : list Handle) : NoDup s → NoDup (set_add h s).
Proof.
  intros Hs. unfold set_add. case_bool_decide; [done|].
  apply NoDup_app. split_and!; [done| |apply NoDup_singleton].
  by intros x Hx ->%list_elem_of_singleton.
Qed.

(** X3.  The registry keeps itself consistent: it starts so, and every
    request and every change of a subscription keeps it so.  In a consistent
    registry no two active toasts share an id, no active id is in the
    dismissed-id cache, and the cache and the three subscriber sets hold
    nothing twice. *)
Theorem registry_stays_consistent :
  consistent initialState
  ∧ (∀ rs st, consistent st → consistent (state_of (requests rs st)))
  ∧ (∀ h st, consistent st →
       consistent (state_of (subscribe h st))
       ∧ consistent (state_of (subscribeToDismiss h st))
       ∧ consistent (state_of (subscribeToUpdate h st))
       ∧ consistent (state_of (unsubscribe h st))
       ∧ consistent (state_of (unsubscribeFromDismiss h st))
       ∧ consistent (state_of (unsubscribeFromUpdate h st))).
Proof.
  split_and!.
  - unfold consistent. simpl. split_and!; try constructor.
    intros id ?%elem_of_nil. done.
  - induction rs as [|r rs IH]; intros st Hst; [done|].
    destruct (requests_cons r rs st) as [-> _]. by apply IH, request_consistent.
  - intros h st (Hids & Hkeys & Hdisj & Hs1 & Hs2 & Hs3).
    unfold consistent, state_of. simpl.
    split_and!; try done; by (apply set_add_NoDup || apply NoDup_filter).
Qed.



(** ** Dismissing and creating again *)

Lemma cache_set_length (k : ToastId) (v : Z) (m : Cache) :
  (length (cache_set k v m) ≤ S (length m))%nat.
Proof.
  rewrite <- !(length_fmap fst), cache_set_keys.
  case_bool_decide; rewrite ?length_app; simpl; lia.
Qed.

Lemma cache_get_cons (k : ToastId) (e : ToastId * Z) (m : Cache) :
  cache_get (e :: m) k = if decide (e.1 = k) then Some e.2 else cache_get m k.
Proof.
  unfold cache_get. simpl. destruct (decide (e.1 = k)); [done|].
  by destruct (list_find _ m) as [[]|].
Qed.

Lemma cache_get_set_ne (k k' : ToastId) (v : Z) (m : Cache) :
  k ≠ k' → cache_get (cache_set k v m) k' = cache_get m k'.
Proof.
  intros Hne. induction m as [|e m IH]; cbn [cache_set].
  - rewrite cache_get_cons. by rewrite decide_False by done.
  - destruct (decide (e.1 = k)) as [He|He]; rewrite !cache_get_cons; simpl.
    + by rewrite !decide_False by congruence.
    + by rewrite IH.
Qed.

Lemma foldl_cache_set_get_other (ts : list ToastT) (now : Z) (m : Cache)
    (id : ToastId) :
  id ∉ toast_id <$> ts →
  cache_get (foldl (λ m' t, cache_set (toast_id t) now m') m ts) id
  = cache_get m id.
Proof.
  revert m. induction ts as [|t ts IH]; intros m; [done|].
  rewrite fmap_cons, not_elem_of_cons. intros [Hne Hts]. simpl.
  rewrite IH by done. by apply cache_get_set_ne.
Qed.

Lemma foldl_cache_set_get (ts : list ToastT) (now : Z) (m : Cache)
    (id : ToastId) :
  id ∈ toast_id <$> ts →
  cache_get (foldl (λ m' t, cache_set (toast_id t) now m') m ts) id = Some now.
Proof.
  revert m. induction ts as [|t ts IH]; intros m; [by intros ?%elem_of_nil|].
  rewrite fmap_cons. intros Hin. simpl.
  destruct (decide (id ∈ toast_id <$> ts)) as [Hts|Hts]; [by apply IH|].
  apply elem_of_cons in Hin as [->|?]; [|done].
  rewrite foldl_cache_set_get_other by done. apply cache_get_set.
Qed.

(** X6.  What [dismiss] has dismissed, [create] does not bring back: after
    [dismiss(id)] on a cache of fewer than [DISMISSED_CACHE_MAX_SIZE] ids,
    the id is not active and a [create] under it, at any time and with any
    title, type and other options, returns the id and changes nothing. *)
Theorem dismissed_id_is_not_recreated (id : ToastId) (now now' : Z)
    (st : State) (title : option Content) (type : ToastType)
    (options : ToastOptions) :
  read (opt_id options) = Some id →
  (length (dismissedToasts st) < DISMISSED_CACHE_MAX_SIZE)%nat →
  let st1 := state_of (dismiss (Some id) now st) in
  isActive st1 id = false
  ∧ cache_get (dismissedToasts st1) id = Some now
  ∧ create title type (Some options) now' st1 = (id, st1, []).
Proof.
  intros Hid Hl st1. subst st1. rewrite dismiss_run. unfold state_of. simpl.
  pose proof (cache_set_length id now (dismissedToasts st)) as Hl'.
  rewrite cleaned_small by lia.
  split_and!.
  - apply isActive_false. simpl. apply findIndex_filter_ne.
  - apply cache_get_set.
  - apply create_suppressed; [by apply resolveId_given|]. simpl.
    apply cache_has_set.
Qed.

(** X7.  [clearDismissedHistory] empties the cache and nothing else, and a
    dismissed id can be created again at once: [dismiss(id)], then
    [clearDismissedHistory()], then [create] under the id adds the new toast
    and publishes a create event. *)
Theorem clearDismissedHistory_allows_recreation (id : ToastId) (now now' : Z)
    (st : State) (title : option Content) (type : ToastType)
    (options : ToastOptions) :
  read (opt_id options) = Some id →
  let st1 := state_of (dismiss (Some id) now st) in
  let st2 := state_of (clearDismissedHistory st1) in
  let toast := newToast (Some options) id type title now' in
  let r := create title type (Some options) now' st2 in
  dismissedToasts st2 = []
  ∧ getToasts st2 = getToasts st1
  ∧ trace_of (clearDismissedHistory st1) = []
  ∧ result_of r = id
  ∧ getToasts (state_of r) = getToasts st1 ++ [toast]
  ∧ getToast (state_of r) id = Some toast
  ∧ events (trace_of r) = [Created toast].
Proof.
  intros Hid st1 st2 toast r.
  assert (findIndex id (toasts st2) = None) as Hf.
  { subst st2 st1. rewrite dismiss_run. unfold state_of. simpl.
    apply findIndex_filter_ne. }
  assert (r = (id, with_toasts st2 (toasts st2 ++ [toast]),
               [Publish (Created toast) (with_toasts st2 (toasts st2 ++ [toast]))]))
    as ->.
  { subst r. apply create_fresh; [by apply resolveId_given|done..]. }
  unfold result_of, state_of, trace_of. simpl. split_and!; try done.
  unfold getToast. simpl. by erewrite findIndex_snoc.
Qed.

Lemma events_onDismissCalls (ts : list ToastT) : events (onDismissCalls ts) = [].
Proof.
  unfold events, onDismissCalls. induction ts as [|t ts IH]; [done|].
  simpl. by destruct (toast_onDismiss t).
Qed.

(** X8.  [dismiss()] dismisses every active toast: it calls the [onDismiss]
    of each toast that has one, in the order of the list, publishes one
    dismiss event without an id, and returns with an empty active list.
    When the event is published every id that was active is in the cache at
    the time of the call, and every other cached id has the time it had. *)
Theorem dismiss_all_dismisses_everything (now : Z) (st : State) :
  let r := dismiss None now st in
  let seen := dismissedState None now st in
  getToasts (state_of r) = []
  ∧ trace_of r = onDismissCalls (toasts st) ++ [Publish (Dismissed None) seen]
  ∧ events (trace_of r) = [Dismissed None]
  ∧ (∀ t, t ∈ toasts st →
       cache_get (dismissedToasts seen) (toast_id t) = Some now)
  ∧ (∀ id, id ∉ toast_id <$> toasts st →
       cache_get (dismissedToasts seen) id = cache_get (dismissedToasts st) id).
Proof.
  intros r seen. subst r seen. rewrite dismiss_run.
  unfold state_of, trace_of. simpl. split_and!; try done.
  - unfold events. rewrite omap_app. fold (events (onDismissCalls (toasts st))).
    by rewrite events_onDismissCalls.
  - intros t Ht. apply foldl_cache_set_get, list_elem_of_fmap. eauto.
  - intros id Hid. by apply foldl_cache_set_get_other.
Qed.

(** ** Subscriptions *)

Lemma set_add_elem (h h' : Handle) (s : list Handle) :
  h' ∈ set_add h s ↔ h' = h ∨ h' ∈ s.
Proof.
  unfold set_add. case_bool_decide as Hh.
  - split; [auto|]. by intros [->|?].
  - rewrite elem_of_app, list_elem_of_singleton. tauto.
Qed.


Lemma set_remove_add (h : Handle) (s : list Handle) :
  h ∉ s → set_remove h (set_add h s) = s.
Proof.
  intros Hh. unfold set_add, set_remove. rewrite bool_decide_eq_false_2 by done.
  rewrite filter_app, filter_cons_False, filter_nil, app_nil_r by (intros ?; done).
  clear -Hh. induction s as [|x s IH]; [done|].
  rewrite not_elem_of_cons in Hh. destruct Hh.
  rewrite filter_cons_True by done. f_equal. auto.
Qed.

Lemma set_remove_twice (h : Handle) (s : list Handle) :
  set_remove h (set_remove h s) = set_remove h s.
Proof.
  unfold set_remove. induction s as [|x s IH]; [done|].
  destruct (decide (x = h)) as [->|Hx].
  - by rewrite !filter_cons_False by (intros ?; done).
  - rewrite !filter_cons_True by done. by f_equal.
Qed.


Lemma deliveries_publish (e : Event) (seen : State) :
  deliveries [Publish e seen] = (λ h, (h, e, seen)) <$> channel seen e.
Proof. unfold deliveries. simpl. by rewrite app_nil_r. Qed.



(** X10.  The function [subscribe] returns removes its callback from the
    create channel and touches nothing else: the other subscribers of the
    channel, the two other channels, the active list and the cache are as
    they were.  A second call changes nothing, and for a callback that was
    not subscribed before, subscribing and unsubscribing gives the registry
    back as it was. *)
Theorem unsubscribe_removes_only_its_callback (h : Handle) (st : State) :
  let st1 := state_of (unsubscribe h st) in
  (h ∉ subscribers st1)
  ∧ (∀ h', h' ≠ h → (h' ∈ subscribers st1 ↔ h' ∈ subscribers st))
  ∧ subscribers st1 `sublist_of` subscribers st
  ∧ dismissSubscribers st1 = dismissSubscribers st
  ∧ updateSubscribers st1 = updateSubscribers st
  ∧ toasts st1 = toasts st
  ∧ dismissedToasts st1 = dismissedToasts st
  ∧ state_of (unsubscribe h st1) = st1
  ∧ (h ∉ subscribers st →
     state_of (unsubscribe h (state_of (subscribe h st))) = st).
Proof.
  intros st1. subst st1. unfold state_of. simpl. split_and!; try done.
  - unfold set_remove. rewrite list_elem_of_filter. by intros [? _].
  - intros h' Hne. unfold set_remove. rewrite list_elem_of_filter. tauto.
  - apply sublist_filter.
  - by rewrite set_remove_twice.
  - intros Hh. rewrite set_remove_add by done. by destruct st.
Qed.

(** ** Generated ids *)

Lemma length_append (s t : string) :
  String.length (s +:+ t) = (String.length s + String.length t)%nat.
Proof. induction s as [|a s IH]; simpl; [done|]. by rewrite IH. Qed.

Lemma append_inj_r (s1 s2 t : string) : s1 +:+ t = s2 +:+ t → s1 = s2.
Proof.
  revert s2. induction s1 as [|a s1 IH]; intros [|b s2] Heq.
  - done.
  - apply (f_equal String.length) in Heq.
    rewrite !length_append in Heq. simpl in Heq. lia.
  - apply (f_equal String.length) in Heq.
    rewrite !length_append in Heq. simpl in Heq. lia.
  - simpl in Heq. injection Heq as -> Heq. f_equal. by apply IH.
Qed.

(** X11.  Two ids generated one after the other at the same reading of the
    clock differ, and the counter of generated ids stays from 0 below
    [Number.MAX_SAFE_INTEGER]. *)
Theorem consecutive_generated_ids_differ (now : Z) (st : State) :
  let r1 := generateId now st in
  let r2 := generateId now (state_of r1) in
  result_of r1 ≠ result_of r2
  ∧ 0 ≤ toastCount (state_of r1) < MAX_SAFE_INTEGER
  ∧ 0 ≤ toastCount (state_of r2) < MAX_SAFE_INTEGER.
Proof.
  intros r1 r2. subst r1 r2. unfold generateId, result_of, state_of. run. simpl.
  set (n1 := (toastCount st + 1) `mod` MAX_SAFE_INTEGER).
  set (n2 := (n1 + 1) `mod` MAX_SAFE_INTEGER).
  assert (0 ≤ n1 < MAX_SAFE_INTEGER) as Hn1
    by (apply Z.mod_pos_bound; unfold MAX_SAFE_INTEGER; lia).
  assert (0 ≤ n2 < MAX_SAFE_INTEGER) as Hn2
    by (apply Z.mod_pos_bound; unfold MAX_SAFE_INTEGER; lia).
  split; [|split; [exact Hn1|exact Hn2]].
  intros [= Heq].
  change (pretty n1 +:+ "-" +:+ pretty now = pretty n2 +:+ "-" +:+ pretty now)
    in Heq.
  apply append_inj_r, (inj pretty) in Heq.
  subst n2. destruct (decide (n1 + 1 < MAX_SAFE_INTEGER)).
  - rewrite Z.mod_small in Heq by lia. lia.
  - assert (n1 + 1 = MAX_SAFE_INTEGER) as Hm by lia.
    rewrite Hm, Z.mod_same in Heq by (unfold MAX_SAFE_INTEGER; lia).
    unfold MAX_SAFE_INTEGER in *. lia.
Qed.

(** ** The copy of the hook *)

Lemma deliveries_app (tr1 tr2 : Trace) :
  deliveries (tr1 ++ tr2) = deliveries tr1 ++ deliveries tr2.
Proof. unfold deliveries. apply bind_app. Qed.

Lemma hook_after_app (hk : Hook) (copy : list ToastT) (tr1 tr2 : Trace) :
  hook_after hk copy (tr1 ++ tr2) = hook_after hk (hook_after hk copy tr1) tr2.
Proof. unfold hook_after. by rewrite deliveries_app, foldl_app. Qed.

Lemma hook_after_publish (hk : Hook) (copy : list ToastT) (e : Event)
    (seen : State) :
  hook_callback hk e ∈ channel seen e →
  hook_after hk copy [Publish e seen] = getToasts seen.
Proof.
  unfold hook_after. rewrite deliveries_publish.
  generalize (channel seen e). intros hs Hin. revert copy.
  induction hs as [|h hs IH]; intros copy; [by apply elem_of_nil in Hin|].
  rewrite fmap_cons. simpl.
  destruct (decide (hook_callback hk e ∈ hs)) as [Hhs|Hhs]; [by apply IH|].
  apply elem_of_cons in Hin as [<-|?]; [|done].
  rewrite bool_decide_eq_true_2 by done.
  clear -Hhs. induction hs as [|h hs IH]; [done|].
  rewrite not_elem_of_cons in Hhs. destruct Hhs as [Hne Hhs].
  rewrite fmap_cons. simpl. rewrite bool_decide_eq_false_2 by done. auto.
Qed.

Lemma hook_after_onDismissCalls (hk : Hook) (copy : list ToastT)
    (ts : list ToastT) :
  hook_after hk copy (onDismissCalls ts) = copy.
Proof.
  unfold hook_after. replace (deliveries (onDismissCalls ts)) with
    (@nil (Handle * Event * State)); [done|].
  unfold deliveries, onDismissCalls. induction ts as [|t ts IH]; [done|].
  simpl. by destruct (toast_onDismiss t).
Qed.

Lemma hook_after_request (hk : Hook) (r : Request) (st : State) :
  hook_create hk ∈ subscribers st →
  hook_dismiss hk ∈ dismissSubscribers st →
  hook_update hk ∈ updateSubscribers st →
  hook_after hk (getToasts st) (trace_of (request r st))
  = getToasts (state_of (request r st)).
Proof.
  intros Hc Hd Hu. rewrite request_state, request_trace.
  destruct r as [title type options now|toastId options|toastId now|].
  - destruct (resolveId_run options now st) as (id & n & Hr).
    destruct (cache_has (dismissedToasts (with_toastCount st n)) id) eqn:Hcache.
    { by rewrite (create_suppressed _ _ _ _ _ _ _ Hr Hcache). }
    destruct (findIndex id (toasts (with_toastCount st n))) as [[i t]|] eqn:Hf.
    + rewrite (create_existing _ _ _ _ _ _ _ _ _ Hr Hcache Hf).
      unfold trace_of, state_of. cbn [fst snd]. by apply hook_after_publish.
    + rewrite (create_fresh _ _ _ _ _ _ _ Hr Hcache Hf).
      unfold trace_of, state_of. cbn [fst snd]. by apply hook_after_publish.
  - destruct (findIndex toastId (toasts st)) as [[i t]|] eqn:Hf.
    + rewrite (update_present _ _ _ _ _ Hf).
      unfold trace_of, state_of. cbn [fst snd]. by apply hook_after_publish.
    + by rewrite (update_absent _ _ _ Hf).
  - rewrite dismiss_run. unfold trace_of, state_of. cbn [fst snd].
    rewrite hook_after_app, hook_after_onDismissCalls.
    rewrite hook_after_publish; [done|]. by destruct toastId.
  - done.
Qed.

Lemma request_keeps_subscribers (r : Request) (st : State) :
  let st' := state_of (request r st) in
  subscribers st' = subscribers st
  ∧ dismissSubscribers st' = dismissSubscribers st
  ∧ updateSubscribers st' = updateSubscribers st.
Proof.
  intros st'. subst st'. rewrite request_state.
  destruct r as [title type options now|toastId options|toastId now|].
  - by destruct (create_keeps title type options now st) as (_ & -> & -> & ->).
  - by destruct (update_keeps toastId options st) as (_ & -> & -> & -> & _).
  - by destruct (dismiss_keeps toastId now st) as (-> & -> & -> & _).
  - done.
Qed.

(** X12.  The copy of [useToastState] follows the registry: once the hook
    has subscribed its three callbacks, after any sequence of [create],
    [update], [dismiss] and [clearDismissedHistory] calls the last list the
    callbacks have stored is the active list of the registry. *)
Theorem hook_copy_follows_registry (hk : Hook) (rs : list Request) (st0 : State) :
  let st := state_of (hook_mount hk st0) in
  getToasts st = getToasts st0
  ∧ hook_after hk (getToasts st) (trace_of (requests rs st))
    = getToasts (state_of (requests rs st)).
Proof.
  intros st. split; [done|].
  assert (hook_create hk ∈ subscribers st
          ∧ hook_dismiss hk ∈ dismissSubscribers st
          ∧ hook_update hk ∈ updateSubscribers st) as Hsub.
  { subst st. unfold hook_mount, state_of. rewrite !bind_run.
    unfold state_of. simpl. split_and!; apply set_add_elem; by left. }
  clearbody st. revert st Hsub.
  induction rs as [|r rs IH]; intros st (Hc & Hd & Hu); [done|].
  destruct (requests_cons r rs st) as [-> ->].
  rewrite hook_after_app, hook_after_request by done.
  apply IH. by destruct (request_keeps_subscribers r st) as (-> & -> & ->).
Qed.

Lemma Toaster_handleDismiss_run (l : list ToastT) (toastId : ToastId)
    (now : Z) (st : State) :
  Toaster_handleDismiss l toastId now st
  = (tt, state_of (dismiss (Some toastId) now st),
     onDismissCalls (option_list (snd <$> findIndex toastId l))
     ++ trace_of (dismiss (Some toastId) now st)).
Proof.
  unfold Toaster_handleDismiss. rewrite bind_run.
  destruct (findIndex toastId l) as [[i t]|]; simpl.
  - unfold callOnDismiss, onDismissCalls. simpl.
    destruct (toast_onDismiss t) as [h|]; simpl.
    + change (state_of (emit (CallOnDismiss h t) st)) with st.
      by destruct (dismiss (Some toastId) now st) as [[[] ?] ?].
    + change (state_of ((mret () : M unit) st)) with st.
      by destruct (dismiss (Some toastId) now st) as [[[] ?] ?].
  - change (state_of ((mret () : M unit) st)) with st.
    by destruct (dismiss (Some toastId) now st) as [[[] ?] ?].
Qed.

(** X13.  Dismissing from the [Toaster] calls [onDismiss] twice: for a toast
    that is active and has an [onDismiss], [handleDismiss] calls it, and the
    [dismiss] of the registry it then calls finds the toast still active and
    calls it again, before the dismiss event. *)
Theorem Toaster_handleDismiss_calls_onDismiss_twice (toastId : ToastId)
    (now : Z) (st : State) (toast : ToastT) (h : Handle) :
  getToast st toastId = Some toast →
  toast_onDismiss toast = Some h →
  let r := Toaster_handleDismiss (getToasts st) toastId now st in
  trace_of r
  = [CallOnDismiss h toast; CallOnDismiss h toast;
     Publish (Dismissed (Some toastId)) (dismissedState (Some toastId) now st)]
  ∧ state_of r = state_of (dismiss (Some toastId) now st)
  ∧ isActive (state_of r) toastId = false.
Proof.
  intros Hg Hh r. subst r. rewrite Toaster_handleDismiss_run.
  rewrite dismiss_run. unfold getToasts. fold (getToast st toastId).
  rewrite Hg. unfold trace_of, state_of, onDismissCalls. simpl. rewrite Hh.
  split_and!; try done.
  apply isActive_false. simpl. apply findIndex_filter_ne.
Qed.

(** * More of the [Toaster] *)

Lemma filteredToasts_sublist (toasts : list ToastT) (toasterId : option string) :
  filteredToasts toasts toasterId `sublist_of` toasts.
Proof.
  unfold filteredToasts. destruct (negb (truthy toasterId)); [done|].
  apply sublist_filter.
Qed.

Lemma visibleToastList_sublist (sorted : list ToastT) (n : Z) :
  visibleToastList sorted n `sublist_of` sorted.
Proof.
  destruct (decide (n ≤ 0)) as [Hn|Hn].
  - unfold visibleToastList. by rewrite bool_decide_eq_true_2.
  - rewrite visibleToastList_keepFirst by lia. apply keepFirst_sublist.
Qed.

(** X14.  What the selector returns is the sorted list of the surface with
    some toasts left out: every toast it shows is active and is addressed to
    this surface or to none, the toasts are in decreasing order of
    [createdAt] on a top-anchored surface and in increasing order on a
    bottom-anchored one, and no id is shown twice if none is active twice. *)
Theorem selector_shows_a_sorted_part (toasts : list ToastT)
    (toasterId : option string) (position : Position) (n : Z) :
  let visible := selector toasts toasterId position n in
  visible `sublist_of` sortedToasts (filteredToasts toasts toasterId) position
  ∧ (∀ t, t ∈ visible →
       t ∈ toasts
       ∧ (truthy toasterId = true →
          toast_toasterId t = toasterId ∨ toast_toasterId t = None))
  ∧ (startsWith_bottom position = false →
     StronglySorted (λ a b, toast_createdAt b ≤ toast_createdAt a) visible)
  ∧ (startsWith_bottom position = true →
     StronglySorted (λ a b, toast_createdAt a ≤ toast_createdAt b) visible)
  ∧ (NoDup (toast_id <$> toasts) → NoDup (toast_id <$> visible)).
Proof.
  intros visible.
  assert (visible `sublist_of`
            sortedToasts (filteredToasts toasts toasterId) position) as Hsub
    by apply visibleToastList_sublist.
  split_and!; [done|..].
  - intros t Ht. eapply elem_of_sublist in Ht; [|done].
    rewrite sortedToasts_Permutation in Ht. unfold filteredToasts in *.
    destruct (truthy toasterId); simpl in *; [|done].
    apply list_elem_of_filter in Ht as [? ?]. done.
  - intros Hp. eapply sublist_sorted; [done|]. by apply sortedToasts_top.
  - intros Hp. eapply sublist_sorted; [done|]. by apply sortedToasts_bottom.
  - intros Hnd. eapply sublist_NoDup; [|by apply fmap_sublist].
    rewrite sortedToasts_Permutation.
    eapply sublist_NoDup; [done|]. apply fmap_sublist, filteredToasts_sublist.
Qed.

Lemma length_keepFirst {A} (important : A → bool) (slots : nat) (l : list A) :
  length (keepFirst important slots l)
  = (length (filter (λ x, important x = true) l)
     + slots `min` length (filter (λ x, important x ≠ true) l))%nat.
Proof.
  revert slots. induction l as [|x l IH]; intros slots; simpl.
  { by destruct slots. }
  destruct (important x) eqn:Hx.
  - rewrite filter_cons_True by done.
    rewrite (filter_cons_False (λ x, important x ≠ true)) by (rewrite Hx; naive_solver).
    simpl. by rewrite IH.
  - rewrite filter_cons_False by (rewrite Hx; done).
    rewrite (filter_cons_True (λ x, important x ≠ true)) by (rewrite Hx; done).
    destruct slots; simpl; rewrite IH; lia.
Qed.

Lemma keepFirst_all {A} (important : A → bool) (slots : nat) (l : list A) :
  (length (filter (λ x, important x ≠ true) l) ≤ slots)%nat →
  keepFirst important slots l = l.
Proof.
  revert slots. induction l as [|x l IH]; intros slots; simpl; [done|].
  destruct (important x) eqn:Hx.
  - rewrite (filter_cons_False (λ x, important x ≠ true)) by (rewrite Hx; naive_solver).
    intros Hl. by rewrite IH.
  - rewrite (filter_cons_True (λ x, important x ≠ true)) by (rewrite Hx; done).
    simpl. intros Hl. destruct slots; [lia|]. rewrite IH; [done|lia].
Qed.

Lemma keepFirst_zero {A} (important : A → bool) (l : list A) :
  keepFirst important 0 l = filter (λ x, important x = true) l.
Proof.
  induction l as [|x l IH]; simpl; [done|]. destruct (important x) eqn:Hx.
  - rewrite filter_cons_True by done. by rewrite IH.
  - rewrite filter_cons_False by (rewrite Hx; done). done.
Qed.

Lemma length_filter_complement {A} (P : A → Prop) `{∀ x, Decision (P x)}
    (l : list A) :
  (length (filter P l) + length (filter (λ x, ¬ P x) l) = length l)%nat.
Proof. rewrite <- length_app. apply Permutation_length, filter_app_complement. Qed.

(** X15.  Under a positive limit [n], with [k] important toasts among the
    sorted ones, the capacity step shows the [k] important toasts and at
    most [n - k] others: never more than the larger of [n] and [k].  It
    shows everything when there are no more than [n] toasts, and only the
    important toasts when there are [n] of them or more. *)
Theorem capacity_shows_at_most_the_limit (sorted : list ToastT) (n : Z) :
  0 < n →
  let k := length (filter (λ t, is_important t = true) sorted) in
  let others := length (filter (λ t, is_important t ≠ true) sorted) in
  let visible := visibleToastList sorted n in
  length visible = (k + Z.to_nat (Z.max 0 (n - Z.of_nat k)) `min` others)%nat
  ∧ Z.of_nat (length visible) ≤ Z.max n (Z.of_nat k)
  ∧ (Z.of_nat (length sorted) ≤ n → visible = sorted)
  ∧ (n ≤ Z.of_nat k → visible = filter (λ t, is_important t = true) sorted).
Proof.
  intros Hn k others visible. subst visible.
  rewrite visibleToastList_keepFirst by done. fold k.
  pose proof (length_filter_complement (λ t, is_important t = true) sorted) as Hl.
  fold k others in Hl.
  split_and!.
  - apply length_keepFirst.
  - rewrite length_keepFirst. fold k others. lia.
  - intros Hall. apply keepFirst_all. fold others. lia.
  - intros Hk. replace (Z.to_nat (Z.max 0 (n - Z.of_nat k))) with 0%nat by lia.
    apply keepFirst_zero.
Qed.

(** X17.  A [Toaster] without a [toasterId], or with the empty string for
    one, shows the toasts addressed to any toaster; one with a [toasterId]
    shows the toasts addressed to it and the toasts addressed to none.  A
    toast addressed to none is on every [Toaster]. *)
Theorem toasterId_routes_toasts (toasts : list ToastT) (toasterId : option string) :
  (truthy toasterId = false → filteredToasts toasts toasterId = toasts)
  ∧ filteredToasts toasts (Some "") = toasts
  ∧ filteredToasts toasts None = toasts
  ∧ (∀ t, t ∈ toasts → toast_toasterId t = None →
       t ∈ filteredToasts toasts toasterId)
  ∧ (truthy toasterId = true →
     ∀ t, t ∈ filteredToasts toasts toasterId
          ↔ t ∈ toasts
            ∧ (toast_toasterId t = toasterId ∨ toast_toasterId t = None)).
Proof.
  unfold filteredToasts. split_and!; try done.
  - by intros ->.
  - intros t Ht Hnone. destruct (negb (truthy toasterId)); [done|].
    apply list_elem_of_filter. auto.
  - intros -> t. simpl. rewrite list_elem_of_filter. tauto.
Qed.

(** ** Announcements *)





(** * More of the [Toast] *)

(** X19.  A [Toast] sets its auto-close timer exactly when the duration in
    effect (the toast's own if it has one, the surface's otherwise) is
    finite and positive, the toast is not a loading toast, and the
    application is active or pausing in the background is off; the timer then
    runs for that duration. *)
Theorem autoCloseTimer_is_set_exactly_when (toast : ToastT) (duration : Duration)
    (pauseOnAppBackground : bool) (appState : AppStateStatus) (ms : Z) :
  autoCloseTimer toast duration pauseOnAppBackground appState = Some ms
  ↔ effectiveDuration toast duration = Millis ms
    ∧ 0 < ms
    ∧ toast_type toast ≠ TLoading
    ∧ (pauseOnAppBackground = true → appState = AppActive).
Proof.
  unfold autoCloseTimer, usePauseableTimer, shouldAutoDismiss.
  destruct (effectiveDuration toast duration) as [d|].
  - rewrite (bool_decide_eq_true_2 (Millis d ≠ PositiveInfinity)) by done.
    rewrite (bool_decide_eq_false_2 (Millis d = PositiveInfinity)) by done.
    cbn [positive_duration].
    destruct (Z.ltb_spec 0 d) as [Hd|Hd]; cbn [andb negb orb].
    2: { split; [done|]. intros ([= ->] & ? & _). lia. }
    destruct (bool_decide_reflect (toast_type toast ≠ TLoading)) as [Hty|Hty];
      cbn [andb negb orb].
    2: { split; [done|]. by intros (_ & _ & ? & _). }
    destruct pauseOnAppBackground; cbn [andb].
    + destruct (bool_decide_reflect (appState ≠ AppActive)) as [Ha|Ha].
      * split; [done|]. intros (_ & _ & _ & Hp). by specialize (Hp eq_refl).
      * split.
        -- intros [= ->]. split_and!; try done. intros _.
           by destruct (decide (appState = AppActive)).
        -- by intros ([= ->] & _).
    + split.
      * intros [= ->]. by split_and!.
      * by intros ([= ->] & _).
  - rewrite (bool_decide_eq_true_2 (PositiveInfinity = PositiveInfinity)) by done.
    rewrite orb_true_r. split; [done|]. by intros ([=] & _).
Qed.

Lemma pinned_toast (toast : ToastT) :
  toast_type toast = TLoading →
  toast_dismissible toast = Some false →
  ∀ duration pauseOnAppBackground appState swipeToDismiss closeButton,
    autoCloseTimer toast duration pauseOnAppBackground appState = None
    ∧ swipeEnabled toast swipeToDismiss = false
    ∧ closeButtonShown toast closeButton = false.
Proof.
  intros Hty Hd duration pause appState swipe close.
  unfold autoCloseTimer, usePauseableTimer, shouldAutoDismiss, swipeEnabled,
    closeButtonShown, dismissible_or_default.
  rewrite Hty, Hd.
  rewrite (bool_decide_eq_false_2 (TLoading ≠ TLoading)) by (by intros ?).
  rewrite !andb_false_r. done.
Qed.


Lemma create_loading_run (title : option Content) (options : option ToastOptions)
    (now : Z) (st : State) :
  let c := create title TLoading (Some (loadingOptions options)) now st in
  trace_of c = []
  ∨ getToast (state_of c) (result_of c)
    = Some (newToast (Some (loadingOptions options)) (result_of c) TLoading
              title now).
Proof.
  intros c. subst c.
  destruct (resolveId_run (Some (loadingOptions options)) now st)
    as (id & n & Hr).
  destruct (cache_has (dismissedToasts (with_toastCount st n)) id) eqn:Hc.
  { left. by rewrite (create_suppressed _ _ _ _ _ _ _ Hr Hc). }
  right.
  destruct (findIndex id (toasts (with_toastCount st n))) as [[i t]|] eqn:Hf.
  - rewrite (create_existing _ _ _ _ _ _ _ _ _ Hr Hc Hf).
    unfold state_of, result_of, getToast. simpl in *.
    by erewrite findIndex_insert.
  - rewrite (create_fresh _ _ _ _ _ _ _ Hr Hc Hf).
    unfold state_of, result_of, getToast. simpl in *.
    by erewrite findIndex_snoc.
Qed.

Section PromiseToasts.
Context {T E : Type}.
Implicit Types (p : Settled T E) (data : PromiseData T E)
  (options : option ToastOptions) (st : State).

(** X20.  The loading toast of [promise] stays until the registry is told
    otherwise: unless the id is a dismissed one, [promise] stores a loading
    toast, and whatever [options] says of [duration] and [dismissible], and
    whatever the surface is set to, a [Toast] sets no auto-close timer for
    it, does not enable the swipe and does not show the close button. *)
Theorem promise_loading_toast_is_pinned data options now st :
  let c := create (data_loading data) TLoading
             (Some (loadingOptions options)) now st in
  trace_of c = []
  ∨ ∃ toast,
      getToast (state_of c) (result_of c) = Some toast
      ∧ toast_type toast = TLoading
      ∧ toast_duration toast = Some PositiveInfinity
      ∧ toast_dismissible toast = Some false
      ∧ ∀ duration pauseOnAppBackground appState swipeToDismiss closeButton,
          autoCloseTimer toast duration pauseOnAppBackground appState = None
          ∧ swipeEnabled toast swipeToDismiss = false
          ∧ closeButtonShown toast closeButton = false.
Proof.
  intros c.
  destruct (create_loading_run (data_loading data) options now st) as [?|Hg];
    [by left|right].
  eexists. split; [exact Hg|]. split_and!; try done. by apply pinned_toast.
Qed.

(** X21.  A work function that throws before it returns a promise is called
    outside the [try]: [promise] is rejected with what was thrown, no update
    is made and [data.finally] is not called, so the loading toast, if one
    was stored, is left as it is, loading and pinned. *)
Theorem promise_work_that_throws_leaves_the_loading_toast (thrown : E) data
    options now (meanwhile : M unit) st :
  let c := create (data_loading data) TLoading
             (Some (loadingOptions options)) now st in
  let r := promise (AFunction (inl thrown)) data options now meanwhile st in
  result_of r = inl thrown
  ∧ state_of r = state_of c
  ∧ trace_of r = trace_of c
  ∧ (∀ h, CallFinally h ∉ trace_of r)
  ∧ (trace_of c = []
     ∨ ∃ toast,
         getToast (state_of r) (result_of c) = Some toast
         ∧ toast_type toast = TLoading
         ∧ ∀ duration pauseOnAppBackground appState swipeToDismiss closeButton,
             autoCloseTimer toast duration pauseOnAppBackground appState = None
             ∧ swipeEnabled toast swipeToDismiss = false
             ∧ closeButtonShown toast closeButton = false).
Proof.
  intros c r. subst r. rewrite promise_work_throws. fold c.
  unfold result_of at 1, state_of at 1 3, trace_of at 1 2. cbn [fst snd].
  split_and!; try done.
  - intros h Hin. subst c.
    destruct (resolveId_run (Some (loadingOptions options)) now st)
      as (id & n & Hr).
    destruct (cache_has (dismissedToasts (with_toastCount st n)) id) eqn:Hc.
    { rewrite (create_suppressed _ _ _ _ _ _ _ Hr Hc) in Hin.
      by apply elem_of_nil in Hin. }
    destruct (findIndex id (toasts (with_toastCount st n))) as [[i t]|] eqn:Hf.
    + rewrite (create_existing _ _ _ _ _ _ _ _ _ Hr Hc Hf) in Hin.
      by apply list_elem_of_singleton in Hin.
    + rewrite (create_fresh _ _ _ _ _ _ _ Hr Hc Hf) in Hin.
      by apply list_elem_of_singleton in Hin.
  - destruct (create_loading_run (data_loading data) options now st) as [?|Hg];
      [by left|right].
    eexists. split; [exact Hg|]. split; [done|]. by apply pinned_toast.
Qed.


(** X23.  [promise] under a dismissed id shows nothing and still runs to its
    end: the loading toast is not created, the update finds no toast, no
    event is published and the registry is as it was, while [data.finally]
    is called and the outcome of the work is passed on. *)
Theorem promise_under_a_dismissed_id (work : Work T E) p data
    (options : ToastOptions) now st (id : ToastId) :
  work = APromise p ∨ work = AFunction (inr p) →
  read (opt_id options) = Some id →
  cache_has (dismissedToasts st) id = true →
  isActive st id = false →
  promise work data (Some options) now (mret tt) st
  = (settledResult p, st, finallyCalls data).
Proof.
  intros Hw Hid Hc Hact. apply isActive_false in Hact.
  assert (promise_settle id p data (Some options) st
          = (settledResult p, st, finallyCalls data)) as Hs.
  { rewrite promise_settle_run. cbv zeta. unfold settledUpdate.
    destruct p; by rewrite (update_absent _ _ _ Hact). }
  assert (create (data_loading data) TLoading
            (Some (loadingOptions (Some options))) now st = (id, st, [])) as Hc'.
  { apply create_suppressed; [|done]. by apply resolveId_given. }
  rewrite (promise_run _ p) by done. cbv zeta. rewrite Hc'.
  unfold result_of, state_of, trace_of. cbv [mret M_ret]. cbn [fst snd].
  by rewrite Hs.
Qed.
End PromiseToasts.

(** ** Leaving *)

Lemma scheduled_app (e1 e2 : list ToastEffect) :
  scheduled (e1 ++ e2) = scheduled e1 ++ scheduled e2.
Proof. unfold scheduled. apply omap_app. Qed.

Lemma trigger_run (toast : ToastT) (position : Position) (exitDuration : Z)
    (isExiting : bool) (t : Trigger) :
  let r := trigger toast position exitDuration isExiting t in
  r.1 = true
  ∧ scheduled r.2 = if isExiting then [] else [toast_id toast].
Proof.
  destruct t, isExiting; simpl; try done;
    unfold handleAutoClose; simpl; by destruct (toast_onAutoClose toast).
Qed.

(** X24.  A [Toast] asks for its dismissal once: whatever the close button,
    the timer and the swipe do and in whatever order, the first of them
    schedules the call of [onDismiss] with the id of the toast, after the
    exit duration, and the later ones schedule nothing. *)
Theorem a_toast_is_dismissed_once (toast : ToastT) (position : Position)
    (exitDuration : Z) (isExiting : bool) (ts : list Trigger) :
  let r := triggers toast position exitDuration isExiting ts in
  (isExiting = true → scheduled r.2 = [])
  ∧ (isExiting = false → ts ≠ [] → scheduled r.2 = [toast_id toast])
  ∧ (ts ≠ [] → r.1 = true)
  ∧ (length (scheduled r.2) ≤ 1)%nat
  ∧ (∀ id delay, ScheduleDismiss id delay ∈ r.2 →
       id = toast_id toast ∧ delay = exitDuration).
Proof.
  assert (∀ ts, scheduled (triggers toast position exitDuration true ts).2 = []
                ∧ (ts ≠ [] → (triggers toast position exitDuration true ts).1 = true))
    as Hlater.
  { clear ts. induction ts as [|t ts [IH1 IH2]]; [done|]. simpl.
    pose proof (trigger_run toast position exitDuration true t) as [Ht1 Ht2].
    destruct (trigger toast position exitDuration true t) as [ex effs].
    simpl in *. subst ex.
    destruct (triggers toast position exitDuration true ts) as [ex' effs'] eqn:E.
    simpl in *. rewrite scheduled_app, Ht2, IH1. split; [done|]. intros _.
    destruct ts; [by injection E as <- _|by apply IH2]. }
  assert (∀ ex ts id delay,
            ScheduleDismiss id delay ∈ (triggers toast position exitDuration ex ts).2 →
            id = toast_id toast ∧ delay = exitDuration) as Hwhat.
  { clear. intros ex ts. revert ex. induction ts as [|t ts IH]; intros ex id delay.
    { by intros ?%elem_of_nil. }
    simpl. destruct (trigger toast position exitDuration ex t) as [ex1 effs] eqn:Et.
    destruct (triggers toast position exitDuration ex1 ts) as [ex2 effs'] eqn:E.
    simpl. intros [Hin|Hin]%elem_of_app.
    - destruct t, ex; simpl in Et; unfold handleAutoClose in Et; simpl in Et;
        try destruct (toast_onAutoClose toast); injection Et as <- <-;
        simpl in Hin;
        repeat match goal with
               | H : _ ∈ _ :: _ |- _ => apply elem_of_cons in H as [H|H]
               | H : _ ∈ [] |- _ => by apply elem_of_nil in H
               | H : ScheduleDismiss _ _ = _ |- _ =>
                   by (discriminate H || injection H as -> ->)
               end.
    - apply (IH ex1). by rewrite E. }
  intros r. subst r. destruct isExiting.
  - destruct (Hlater ts) as [Hs Hex]. rewrite Hs. split_and!; try done.
    + simpl. lia.
    + apply Hwhat.
  - destruct ts as [|t ts].
    { simpl. split_and!; try done; [lia|]. by intros ?? ?%elem_of_nil. }
    assert (scheduled (triggers toast position exitDuration false (t :: ts)).2
            = [toast_id toast]
            ∧ (triggers toast position exitDuration false (t :: ts)).1 = true)
      as [Hs Hex].
    { simpl.
      pose proof (trigger_run toast position exitDuration false t) as [Ht1 Ht2].
      destruct (trigger toast position exitDuration false t) as [ex effs].
      simpl in *. subst ex. destruct (Hlater ts) as [Hs' Hex'].
      destruct (triggers toast position exitDuration true ts) as [ex' effs'] eqn:E.
      simpl in *. rewrite scheduled_app, Ht2, Hs'. split; [done|].
      destruct ts; [by injection E as <- _|by apply Hex']. }
    rewrite Hs. split_and!; try done.
    apply Hwhat.
Qed.

(** X25.  A [Toast] renders an icon exactly when it lays its content out
    for one: [ToastIcon] returns an icon if and only if [hasIcon] holds.  The
    icon of the toast goes before the icon the surface has for the type, and
    that before the built-in one; a toast of the default type has an icon
    only if it brings its own. *)
Theorem an_icon_is_rendered_iff_hasIcon (icon : option Handle)
    (icons : option ToastIcons) (type : ToastType) :
  (is_Some (ToastIcon icon icons type) ↔ hasIcon icon icons type = true)
  ∧ (∀ node, icon = Some node → ToastIcon icon icons type = Some (Custom node))
  ∧ (∀ node, icon = None → customIcon icons type = Some node →
       ToastIcon icon icons type = Some (Custom node))
  ∧ (ToastIcon icon icons TDefault = Custom <$> icon).
Proof.
  split_and!.
  - unfold ToastIcon, hasIcon, hasCustomIcon.
    destruct icon, (customIcon icons type), type; simpl;
      (split; [intros [? ?]|intros ?]); first [done|by eexists].
  - by intros node ->.
  - intros node -> Hc. unfold ToastIcon. by rewrite Hc.
  - unfold ToastIcon. destruct icon; [done|].
    by destruct icons.
Qed.

(** * The further properties on sample registries *)

Lemma create_new_id_appends_witness :
  let toast :=
    newToast (Some (withId (IdNum 2))) (IdNum 2) TInfo (Some (CText "v")) 7 in
  let r := create (Some (CText "v")) TInfo (Some (withId (IdNum 2))) 7 oneToast in
  getToasts (state_of r) = getToasts oneToast ++ [toast]
  ∧ events (trace_of r) = [Created toast].
Proof.
  destruct (create_new_id_appends (Some (CText "v")) TInfo (withId (IdNum 2)) 7
              oneToast (IdNum 2) eq_refl eq_refl eq_refl)
    as (_ & Hl & _ & _ & He & _).
  exact (conj Hl He).
Defined.

Lemma other_toasts_untouched_witness :
  getToast (state_of (dismiss (Some (IdNum 2)) 9 oneToast)) (IdNum 1)
  = getToast oneToast (IdNum 1).
Proof.
  assert (IdNum 1 ≠ IdNum 2) as Hne by discriminate.
  exact (proj2 (proj2 (other_toasts_untouched (IdNum 2) (IdNum 1) oneToast Hne)) 9).
Defined.

Lemma registry_stays_consistent_witness :
  consistent (state_of (requests [DoCreate (Some (CText "t")) TDefault None 1;
                                  DoDismiss None 2] initialState)).
Proof.
  apply (proj1 (proj2 registry_stays_consistent)).
  exact (proj1 registry_stays_consistent).
Defined.



Lemma dismissed_id_is_not_recreated_witness :
  let st1 := state_of (dismiss (Some (IdNum 1)) 5 oneToast) in
  isActive st1 (IdNum 1) = false
  ∧ cache_get (dismissedToasts st1) (IdNum 1) = Some 5
  ∧ create (Some (CText "again")) TDefault (Some (withId (IdNum 1))) 6 st1
    = (IdNum 1, st1, []).
Proof.
  apply (dismissed_id_is_not_recreated (IdNum 1) 5 6 oneToast
           (Some (CText "again")) TDefault (withId (IdNum 1))).
  - reflexivity.
  - simpl. unfold DISMISSED_CACHE_MAX_SIZE. lia.
Defined.

Lemma clearDismissedHistory_allows_recreation_witness :
  let st1 := state_of (dismiss (Some (IdNum 1)) 5 oneToast) in
  let st2 := state_of (clearDismissedHistory st1) in
  result_of (create (Some (CText "again")) TDefault (Some (withId (IdNum 1))) 6 st2)
  = IdNum 1
  ∧ isActive
      (state_of (create (Some (CText "again")) TDefault
                   (Some (withId (IdNum 1))) 6 st2)) (IdNum 1) = true.
Proof.
  destruct (clearDismissedHistory_allows_recreation (IdNum 1) 5 6 oneToast
              (Some (CText "again")) TDefault (withId (IdNum 1)) eq_refl)
    as (_ & _ & _ & Hr & _).
  split; [exact Hr|]. reflexivity.
Defined.


Lemma unsubscribe_removes_only_its_callback_witness :
  state_of (unsubscribe 4%nat (state_of (subscribe 4%nat initialState)))
  = initialState.
Proof.
  destruct (unsubscribe_removes_only_its_callback 4%nat initialState)
    as (_ & _ & _ & _ & _ & _ & _ & _ & Hround).
  apply Hround. simpl. apply not_elem_of_nil.
Defined.

Lemma Toaster_handleDismiss_calls_onDismiss_twice_witness :
  let toast :=
    newToast (Some (withOnDismiss (IdNum 1) 3%nat)) (IdNum 1) TDefault
      (Some (CText "t")) 1 in
  trace_of (Toaster_handleDismiss (getToasts watchedToast) (IdNum 1) 8 watchedToast)
  = [CallOnDismiss 3%nat toast; CallOnDismiss 3%nat toast;
     Publish (Dismissed (Some (IdNum 1)))
       (dismissedState (Some (IdNum 1)) 8 watchedToast)].
Proof.
  exact (proj1 (Toaster_handleDismiss_calls_onDismiss_twice (IdNum 1) 8
                  watchedToast _ 3%nat eq_refl eq_refl)).
Defined.

Lemma selector_shows_a_sorted_part_witness :
  let toasts := [plainToast 1 10 false; plainToast 2 20 false] in
  StronglySorted (λ a b, toast_createdAt b ≤ toast_createdAt a)
    (selector toasts None TopCenter 1)
  ∧ NoDup (toast_id <$> selector toasts None TopCenter 1).
Proof.
  intros toasts.
  destruct (selector_shows_a_sorted_part toasts None TopCenter 1)
    as (_ & _ & Htop & _ & Hnd).
  split; [by apply Htop|]. apply Hnd. simpl.
  apply NoDup_cons. split; [|apply NoDup_singleton].
  rewrite list_elem_of_singleton. discriminate.
Defined.

Lemma capacity_shows_at_most_the_limit_witness :
  let sorted := [plainToast 3 30 false; plainToast 2 20 true;
                 plainToast 1 10 false] in
  Z.of_nat (length (visibleToastList sorted 2)) ≤ 2.
Proof.
  intros sorted.
  assert (0 < 2) as Hn by lia.
  exact (proj1 (proj2 (capacity_shows_at_most_the_limit sorted 2 Hn))).
Defined.

Lemma bottom_reversed_is_top_witness :
  let toasts := [plainToast 1 10 false; plainToast 2 20 true] in
  reverse (selector toasts None BottomLeft 0) = selector toasts None TopRight 0.
Proof.
  intros toasts.
  apply (bottom_reversed_is_top toasts None BottomLeft TopRight 0);
    [reflexivity|reflexivity|lia].
Defined.

Lemma toasterId_routes_toasts_witness :
  let toasts := [plainToast 1 10 false] in
  plainToast 1 10 false ∈ filteredToasts toasts (Some "left").
Proof.
  intros toasts.
  destruct (toasterId_routes_toasts toasts (Some "left")) as (_ & _ & _ & Hin & _).
  apply Hin; [apply list_elem_of_here|reflexivity].
Defined.



Lemma promise_under_a_dismissed_id_witness :
  let st := state_of (dismiss (Some (IdNum 1)) 5 oneToast) in
  promise (APromise (Fulfilled 4%nat)) boomData (Some (withId (IdNum 1))) 6
    (mret tt) st
  = (inr 4%nat, st, [CallFinally 9%nat]).
Proof.
  intros st.
  apply (promise_under_a_dismissed_id (APromise (Fulfilled 4%nat))
           (Fulfilled 4%nat) boomData (withId (IdNum 1)) 6 st (IdNum 1));
    [by left|reflexivity..].
Defined.

Lemma a_toast_is_dismissed_once_witness :
  scheduled (triggers (plainToast 1 10 false) TopCenter 200 false
               [SwipedAway; TimerFired; ClosePressed]).2
  = [IdNum 1].
Proof.
  apply (a_toast_is_dismissed_once (plainToast 1 10 false) TopCenter 200 false
           [SwipedAway; TimerFired; ClosePressed]); [reflexivity|discriminate].
Defined.
